(** * news_telegram: the interaction store, the alert registry and the
      notification matcher of [app.py]

    A shallow embedding of the handlers of [src/app.py] and of the SQL
    statements they run, followed by the properties of the store, of the
    keyword matcher and of the aggregate views.

    Conventions of the model.
    - Python [str] values are sequences of Unicode code points: [str] is
      [list N].  The Unicode tables Python consults ([str.lower], [\w], ...)
      are the fields of the class [Unicode]; [ascii_tables] is their
      restriction to the ASCII range, used to run the examples.
    - A chat is identified by the text [str(chat_id)], the form in which both
      tables store it; line 68 turns that text back into the integer with
      [int], the inverse of [str] on such texts.
    - [get_news] and [summarize_with_ai] perform network requests, and
      [escape_markdown] is a helper of the transport library: their results
      are inputs of the model (the fields of [World]).  The handlers are
      modelled for a fetch that returns a text; the [KeyError] with which
      [get_news] ends on an article without title (line 121, modelled in
      [Gnews]) is not followed into [news_command].
    - Messages handed to [context.bot.send_message] are appended to an outbox
      in the order of the calls; delivery is taken to succeed.
    - The handlers open the database as ["memory.db"] or as [DB_PATH]; the
      model has one database, which is the case when the bot is started from
      the directory of [app.py] (otherwise [notify_alerts] finds no [alerts]
      table at all). *)

From Stdlib Require Import NArith List Ascii String Permutation Sorted Lia.
From stdpp Require Import base option list sets gmap pretty lexico sorting.

#[local] Set Warnings "-clear-no-such-hyp".
Local Open Scope N_scope.

(** ** Text *)

Definition char := N.
Definition str := list char.

(** A literal of the source, as code points (the literals used are ASCII). *)
Definition lit (s : string) : str := N_of_ascii <$> list_ascii_of_string s.

Module Py.

(** [s.startswith(prefix)] *)
Fixpoint startswith (s prefix : str) : bool :=
  match prefix, s with
  | [], _ => true
  | _ :: _, [] => false
  | p :: prefix', c :: s' => (c =? p) && startswith s' prefix'
  end.

(** [s.startswith((p1, p2, ...))] *)
Definition startswith_any (s : str) (prefixes : list str) : bool :=
  existsb (startswith s) prefixes.

(** [sep.join(parts)] *)
Fixpoint join (sep : str) (parts : list str) : str :=
  match parts with
  | [] => []
  | [p] => p
  | p :: rest => p ++ sep ++ join sep rest
  end.

Fixpoint lstrip (space : char -> bool) (s : str) : str :=
  match s with
  | [] => []
  | c :: s' => if space c then lstrip space s' else s
  end.

(** [s.strip()] for the whitespace class [space] *)
Definition strip (space : char -> bool) (s : str) : str :=
  rev (lstrip space (rev (lstrip space s))).

(** [a or b] on strings: the empty string is falsy. *)
Definition or_else (a b : str) : str :=
  match a with [] => b | _ :: _ => a end.

(** [str(n)] for a non-negative integer *)
Definition str_of_N (n : N) : str := lit (pretty n).

End Py.

(** The Unicode tables behind the string methods and the [re] module. *)
Class Unicode := {
  (** [str.lower] *)
  py_lower : str -> str;
  (** [str.capitalize] *)
  py_capitalize : str -> str;
  (** [str.isspace] on one character: what [str.strip] removes *)
  py_isspace : char -> bool;
  (** [str.isdigit] on one character *)
  py_isdigit : char -> bool;
  (** the value [int] gives a decimal digit; [None] for a character that
      [int] rejects with [ValueError] (a superscript two is a digit for
      [isdigit] and has no decimal value) *)
  py_decimal : char -> option N;
  (** the class [\w] of a [str] pattern *)
  re_word : char -> bool;
  (** the representative of a character under [re.IGNORECASE]: two
      characters match when their representatives are equal *)
  re_fold : char -> char
}.

Module Ascii_range.

Definition is_upper (c : char) : bool := (65 <=? c) && (c <=? 90).
Definition is_lower (c : char) : bool := (97 <=? c) && (c <=? 122).
Definition is_digit (c : char) : bool := (48 <=? c) && (c <=? 57).
Definition to_lower (c : char) : char := if is_upper c then c + 32 else c.
Definition to_upper (c : char) : char := if is_lower c then c - 32 else c.
Definition is_space (c : char) : bool :=
  ((9 <=? c) && (c <=? 13)) || ((28 <=? c) && (c <=? 32)).
Definition is_word (c : char) : bool :=
  is_upper c || is_lower c || is_digit c || (c =? 95).
Definition capitalize (s : str) : str :=
  match s with
  | [] => []
  | c :: s' => to_upper c :: (to_lower <$> s')
  end.
Definition decimal (c : char) : option N :=
  if is_digit c then Some (c - 48) else None.

End Ascii_range.

(** The tables on the ASCII range; characters above it are left alone. *)
Definition ascii_tables : Unicode := {|
  py_lower := fmap Ascii_range.to_lower;
  py_capitalize := Ascii_range.capitalize;
  py_isspace := Ascii_range.is_space;
  py_isdigit := Ascii_range.is_digit;
  py_decimal := Ascii_range.decimal;
  re_word := Ascii_range.is_word;
  re_fold := Ascii_range.to_lower
|}.

(** ** The fragment of [re] that [notify_alerts] uses *)

Module Re.

Definition backslash : char := 92.

(** The characters [re.escape] puts a backslash before
    ([_special_chars_map] of [re]). *)
Definition escaped_chars : list char :=
  lit "()[]{}?*+-|^$\.&~# " ++ [9; 10; 13; 11; 12].

(** The characters with a meaning of their own in a pattern
    ([SPECIAL_CHARS] of the parser). *)
Definition special_chars : list char := lit ".\[{()*+?^$|".

Definition mem (c : char) (l : list char) : bool := existsb (N.eqb c) l.

(** [re.escape(s)] *)
Fixpoint escape (s : str) : str :=
  match s with
  | [] => []
  | c :: s' =>
      if mem c escaped_chars then backslash :: c :: escape s'
      else c :: escape s'
  end.

Definition is_ascii_alnum (c : char) : bool :=
  Ascii_range.is_upper c || Ascii_range.is_lower c || Ascii_range.is_digit c.

(** What a pattern of the fragment compiles to. *)
Inductive node :=
| LITERAL (c : char)
| AT_BOUNDARY.

(** The pattern parser on the fragment: ordinary characters, [\b], and a
    backslash before a character that is no ASCII letter or digit.  [None]
    is a pattern outside the fragment (an unescaped special character,
    another letter escape) or a pattern the parser rejects. *)
Fixpoint parse (p : str) : option (list node) :=
  match p with
  | [] => Some []
  | c :: rest =>
      if c =? backslash then
        match rest with
        | [] => None
        | e :: rest' =>
            if e =? 98 then cons AT_BOUNDARY <$> parse rest'
            else if is_ascii_alnum e then None
            else cons (LITERAL e) <$> parse rest'
        end
      else if mem c special_chars then None
      else cons (LITERAL c) <$> parse rest
  end.

Section Matching.
Context {U : Unicode}.

Definition word_at (c : option char) : bool :=
  match c with Some x => re_word x | None => false end.

(** [\b]: exactly one of the two neighbours is a word character; the
    two ends of the text count as non-word. *)
Definition at_boundary (prev next : option char) : bool :=
  xorb (word_at prev) (word_at next).

(** Two characters are equal under [re.IGNORECASE]. *)
Definition same_char (a b : char) : bool := re_fold a =? re_fold b.

(** The nodes match at the current position; [prev] is the character
    before it and [s] the text from it on. *)
Fixpoint match_here (nodes : list node) (prev : option char) (s : str) : bool :=
  match nodes with
  | [] => true
  | AT_BOUNDARY :: nodes' =>
      at_boundary prev (head s) && match_here nodes' prev s
  | LITERAL c :: nodes' =>
      match s with
      | [] => false
      | x :: s' => same_char c x && match_here nodes' (Some x) s'
      end
  end.

(** Try every position from the current one to the end of the text. *)
Fixpoint search_from (nodes : list node) (prev : option char) (s : str) : bool :=
  match_here nodes prev s ||
  match s with
  | [] => false
  | c :: s' => search_from nodes (Some c) s'
  end.

(** [bool(re.search(pattern, text, flags=re.IGNORECASE))]; [None] when
    the pattern is outside the fragment. *)
Definition search (pattern text : str) : option bool :=
  (fun nodes => search_from nodes None text) <$> parse pattern.

End Matching.

End Re.

(** ** The database *)

(** A row of [interactions].  [timestamp] is the text that
    [CURRENT_TIMESTAMP] produced at the insert; SQLite compares such values
    as text. *)
Record interaction := {
  i_id : N;
  i_chat_id : str;
  input_topic : str;
  news_data : str;
  summary : str;
  timestamp : str
}.

(** A row of [alerts]. *)
Record alert := {
  a_id : N;
  a_chat_id : str;
  keyword : str
}.

(** The two tables, each in rowid order, with the counter that
    [AUTOINCREMENT] keeps for it (the largest id ever given). *)
Record database := {
  interactions : list interaction;
  interactions_seq : N;
  alerts : list alert;
  alerts_seq : N
}.

(** [init_db] and [init_alerts_db] on a new file. *)
Definition empty_db : database :=
  {| interactions := []; interactions_seq := 0; alerts := []; alerts_seq := 0 |}.

(** ** The SQL statements *)

Module Sql.

(** The order of TEXT values under the BINARY collation. *)
Fixpoint text_lt (a b : str) : bool :=
  match a, b with
  | _, [] => false
  | [], _ :: _ => true
  | x :: a', y :: b' => (x <? y) || ((x =? y) && text_lt a' b')
  end.

Section Rows.
Context {A : Type}.

(** [place before x sorted] puts [x] into a sorted result: after the
    rows that come strictly [before] it and in front of the others. *)
Fixpoint place (before : A -> A -> bool) (x : A) (sorted : list A) : list A :=
  match sorted with
  | [] => [x]
  | y :: rest => if before y x then y :: place before x rest else x :: sorted
  end.

(** [ORDER BY]: [before y x] says that [y] is strictly ahead of [x] in
    the requested order.  Rows that the order does not separate stay in
    scan order: SQLite sorts a statement with a LIMIT through an index
    whose key is the ORDER BY value followed by the number of the row in
    the scan. *)
Definition order_by (before : A -> A -> bool) (rows : list A) : list A :=
  foldr (place before) [] rows.

(** [a] may stand in front of [b] in a result ordered by [before]: [b] is
    not strictly before [a]. *)
Definition in_order (before : A -> A -> bool) (a b : A) : Prop := before b a = false.

(** [LIMIT n] *)
Definition limit (n : N) (rows : list A) : list A := take (N.to_nat n) rows.

Context `{EqDecision A}.

(** [SELECT DISTINCT]: a row is output the first time the scan meets its
    value; [seen] is the index of the values already output. *)
Fixpoint distinct_from (seen : list A) (rows : list A) : list A :=
  match rows with
  | [] => []
  | x :: rest =>
      if bool_decide (x ∈ seen) then distinct_from seen rest
      else x :: distinct_from (x :: seen) rest
  end.

Definition distinct (rows : list A) : list A := distinct_from [] rows.

(** [COUNT] of the rows with a given value *)
Definition count (x : A) (rows : list A) : N :=
  N.of_nat (length (filter (λ y, y = x) rows)).

End Rows.

(** The keys of the groups of [GROUP BY k], in the order in which the
    statements of the handlers produce them.  SQL leaves that order open;
    SQLite forms the groups with a sorter on the key, to which it gives the
    direction of the one [ORDER BY] term of the statement, [DESC] in all
    three statements. *)
Definition group_keys (keys : list str) : list str :=
  order_by (λ y x, text_lt x y) (distinct keys).

(** [SELECT k, COUNT( * ) ... GROUP BY k] over the key column [keys]: one
    row per key. *)
Definition group_count (keys : list str) : list (str * N) :=
  (λ k, (k, count k keys)) <$> group_keys keys.

(** [ORDER BY count DESC] on such rows *)
Definition by_count_desc (rows : list (str * N)) : list (str * N) :=
  order_by (λ y x, x.2 <? y.2) rows.

End Sql.

(** The rows of one chat, in scan order. *)
Definition rows_of_chat (chat : str) (d : database) : list interaction :=
  filter (λ r, i_chat_id r = chat) (interactions d).

(** [SELECT ... FROM interactions WHERE chat_id = ? ORDER BY timestamp DESC
    LIMIT ?] of [history_command]: the selected rows, before the
    projection on [(timestamp, input_topic, summary)]. *)
Definition recent (d : database) (chat : str) (n : N) : list interaction :=
  Sql.limit n
    (Sql.order_by (λ y x, Sql.text_lt (timestamp x) (timestamp y)) (rows_of_chat chat d)).

(** [SELECT input_topic, COUNT( * ) as count FROM interactions WHERE chat_id
    = ? GROUP BY input_topic ORDER BY count DESC LIMIT n] of
    [mytopics_command], which runs it with [n = 5]. *)
Definition topic_frequency (d : database) (chat : str) (n : N) : list (str * N) :=
  Sql.limit n (Sql.by_count_desc (Sql.group_count (input_topic <$> rows_of_chat chat d))).

(** The same statement without the [WHERE] ([trending_command] with
    [n = 5]; [discover_command] keeps the topics with [n = 10]). *)
Definition global_topic_frequency (d : database) (n : N) : list (str * N) :=
  Sql.limit n (Sql.by_count_desc (Sql.group_count (input_topic <$> interactions d))).

(** [SELECT DISTINCT input_topic FROM interactions WHERE chat_id = ?] *)
Definition distinct_topics (d : database) (chat : str) : list str :=
  Sql.distinct (input_topic <$> rows_of_chat chat d).

(** [SELECT DISTINCT chat_id, keyword FROM alerts] *)
Definition all_subscriptions (d : database) : list (str * str) :=
  Sql.distinct ((λ a, (a_chat_id a, keyword a)) <$> alerts d).

(** [SELECT keyword FROM alerts WHERE chat_id = ?] *)
Definition list_for_chat (d : database) (chat : str) : list str :=
  keyword <$> filter (λ a, a_chat_id a = chat) (alerts d).

(** [INSERT INTO interactions (chat_id, input_topic, news_data, summary)
    VALUES (?, ?, ?, ?)]; [now] is the value of [CURRENT_TIMESTAMP]. *)
Definition append (now : str) (chat topic news digest : str) (d : database) : database :=
  let id := interactions_seq d + 1 in
  {| interactions := interactions d ++
       [{| i_id := id; i_chat_id := chat; input_topic := topic;
           news_data := news; summary := digest; timestamp := now |}];
     interactions_seq := id;
     alerts := alerts d;
     alerts_seq := alerts_seq d |}.

(** [INSERT INTO alerts (chat_id, keyword) VALUES (?, ?)] *)
Definition subscribe (chat kw : str) (d : database) : database :=
  let id := alerts_seq d + 1 in
  {| interactions := interactions d;
     interactions_seq := interactions_seq d;
     alerts := alerts d ++ [{| a_id := id; a_chat_id := chat; keyword := kw |}];
     alerts_seq := id |}.

Definition subscribed (chat kw : str) (a : alert) : Prop :=
  a_chat_id a = chat ∧ keyword a = kw.

Global Instance subscribed_dec chat kw a : Decision (subscribed chat kw a).
Proof. unfold subscribed. apply _. Defined.

(** [DELETE FROM alerts WHERE chat_id = ? AND keyword = ?], with the
    [rowcount] of the cursor. *)
Definition unsubscribe (chat kw : str) (d : database) : database * N :=
  ({| interactions := interactions d;
      interactions_seq := interactions_seq d;
      alerts := filter (λ a, ¬ subscribed chat kw a) (alerts d);
      alerts_seq := alerts_seq d |},
   N.of_nat (length (filter (subscribed chat kw) (alerts d)))).

(** ** Handlers as state transformers *)

Inductive parse_mode := Markdown | MarkdownV2.

(** One call of [context.bot.send_message]. *)
Record message := {
  to : str;
  text : str;
  mode : option parse_mode
}.

(** The exceptions of the model: [OverflowError] from the binding of a
    statement parameter above the 64-bit range, and the [re.error] of a
    pattern that does not compile. *)
Inductive exn := OverflowError | PatternError.

Inductive outcome (A : Type) :=
| Returned (a : A)
| Raised (e : exn).
Arguments Returned {A} a.
Arguments Raised {A} e.

Record state := {
  store : database;
  outbox : list message
}.

Definition Bot (A : Type) : Type := state -> outcome A * state.

Global Instance Bot_ret : MRet Bot := λ A a s, (Returned a, s).

Global Instance Bot_bind : MBind Bot := λ A B f m s,
  match m s with
  | (Returned a, s') => f a s'
  | (Raised e, s') => (Raised e, s')
  end.

Definition raise {A} (e : exn) : Bot A := λ s, (Raised e, s).

(** Read the database. *)
Definition query {A} (q : database -> A) : Bot A := λ s, (Returned (q (store s)), s).

(** Run a statement that changes the database and commit. *)
Definition execute {A} (stmt : database -> database * A) : Bot A := λ s,
  let '(d, a) := stmt (store s) in
  (Returned a, {| store := d; outbox := outbox s |}).

Definition send_message (chat msg : str) (pm : option parse_mode) : Bot unit := λ s,
  (Returned tt,
   {| store := store s;
      outbox := outbox s ++ [{| to := chat; text := msg; mode := pm |}] |}).

(** The messages a handler sends and the database it leaves, from a
    database and an empty outbox. *)
Definition run {A} (m : Bot A) (d : database) : outcome A * state :=
  m {| store := d; outbox := [] |}.

(** What the handlers take from outside the process. *)
Record World := {
  (** the text [get_news] returns for a topic *)
  get_news : str -> str;
  (** the text [summarize_with_ai] returns for a news text *)
  summarize_with_ai : str -> str;
  (** [telegram.helpers.escape_markdown(_, version=2)] *)
  escape_markdown : str -> str;
  (** the environment variable [TELEGRAM_CHAT_ID], empty when unset *)
  CHANNEL_ID : str;
  (** [CURRENT_TIMESTAMP] at the insert of the request *)
  now : str
}.

(** The largest integer a statement parameter can hold. *)
Definition sqlite_max_int : N := 9223372036854775807.

Definition newline : str := [10].

(** U+00A0, the character between the topic and the count at line 243. *)
Definition no_break_space : char := 160.

Section Handlers.
Context {U : Unicode}.

(** The pattern of line 65: [r'\b{}\b'.format(re.escape(keyword))] *)
Definition alert_pattern (kw : str) : str :=
  lit "\b" ++ Re.escape kw ++ lit "\b".

(** The text of line 69. *)
Definition alert_text (kw : str) : str :=
  [128276] ++ lit " ALERT: The keyword '" ++ kw ++ lit "' appears in the latest news!".

(** The loop of lines 63-71 over the fetched rows. *)
Fixpoint notify_loop (news : str) (rows : list (str * str))
    (already_notified : gset str) : Bot unit :=
  match rows with
  | [] => mret tt
  | (chat, kw) :: rest =>
      match Re.search (alert_pattern kw) news with
      | None => raise PatternError
      | Some found =>
          if found && bool_decide (chat ∉ already_notified) then
            send_message chat (alert_text kw) None;;
            notify_loop news rest ({[chat]} ∪ already_notified)
          else notify_loop news rest already_notified
      end
  end.

Definition notify_alerts (news : str) : Bot unit :=
  rows ← query all_subscriptions;
  notify_loop news rows ∅.

Definition log_interaction (W : World) (chat topic news digest : str) : Bot unit :=
  execute (λ d, (append (now W) chat topic news digest d, tt)).

(** Line 145: the topic of a request. *)
Definition requested_topic (args : list str) : str :=
  Py.or_else (Py.strip py_isspace (py_lower (Py.join (lit " ") args))) (lit "India").

Definition news_command (W : World) (chat : str) (args : list str) : Bot unit :=
  let input_topic := requested_topic args in
  let display_topic :=
    if bool_decide (input_topic = lit "top") then lit "Top Headlines"
    else py_capitalize input_topic in
  send_message chat
    ([128269] ++ lit " Searching GNews and summarizing news for *" ++
     display_topic ++ lit "*...") (Some Markdown);;
  let news := get_news W input_topic in
  notify_alerts news;;
  if Py.startswith_any news [lit "Error:"; lit "No news"] then
    send_message chat news None
  else
    let digest := summarize_with_ai W news in
    if Py.startswith_any digest
         [lit "AI summarization failed:"; lit "Gemini AI API error:"] then
      send_message chat digest None
    else
      let summary_safe := escape_markdown W digest in
      let display_safe := escape_markdown W display_topic in
      let final_digest :=
        lit "AI News Digest: *" ++ display_safe ++ lit "*" ++ newline ++ newline ++
        summary_safe in
      let final_digest :=
        if (4000 <? length final_digest)%nat then take 3990 final_digest ++ lit "..."
        else final_digest in
      send_message chat final_digest (Some MarkdownV2);;
      (if negb (bool_decide (CHANNEL_ID W = [])) &&
          Py.startswith (CHANNEL_ID W) (lit "-100")
       then send_message (CHANNEL_ID W) final_digest (Some MarkdownV2)
       else mret tt);;
      log_interaction W chat input_topic news digest.

(** [s.isdigit()] *)
Definition isdigit (s : str) : bool :=
  match s with [] => false | _ :: _ => forallb py_isdigit s end.

(** The longest text of digits [int] converts ([sys.int_max_str_digits]
    of CPython 3.11, leading zeros included). *)
Definition int_max_str_digits : nat := 4300.

(** [int(s)] on a text of digits; [None] is [ValueError]: the empty text,
    a text of more than 4300 digits, a digit without decimal value. *)
Definition int (s : str) : option N :=
  match s with
  | [] => None
  | _ :: _ =>
      if (int_max_str_digits <? length s)%nat then None
      else foldl (λ acc c, n ← acc; d ← py_decimal c; Some (10 * n + d)) (Some 0) s
  end.

(** Lines 189-193: the number of rows [history_command] asks for. *)
Definition history_limit (args : list str) : N :=
  match args with
  | [] => 3
  | a :: _ =>
      if isdigit a then
        match int a with
        | Some n => n
        | None => 3
        end
      else 3
  end.

Definition history_entry (i : nat) (r : interaction) : str :=
  Py.str_of_N (N.of_nat (S i)) ++ lit ". [" ++ timestamp r ++ lit "] Topic: " ++
  input_topic r ++ newline ++ lit "   Summary: " ++ take 120 (summary r) ++ lit "...".

Definition history_command (chat : str) (args : list str) : Bot unit :=
  let n := history_limit args in
  if sqlite_max_int <? n then raise OverflowError
  else
    rows ← query (λ d, recent d chat n);
    match rows with
    | [] => send_message chat (lit "No history found yet. Try /news <topic>!") None
    | _ :: _ =>
        let msg_lines :=
          (lit "Your last " ++ Py.str_of_N n ++ lit " news requests:") ::
          imap history_entry rows in
        send_message chat (Py.join (newline ++ newline) msg_lines) (Some Markdown)
    end.

Definition mytopics_command (chat : str) : Bot unit :=
  rows ← query (λ d, topic_frequency d chat 5);
  match rows with
  | [] =>
      send_message chat
        (lit "No topics found yet! Try /news <topic> to start building your news profile.")
        None
  | _ :: _ =>
      let msg_lines :=
        lit "Your top requested news topics:" ::
        imap (λ i '(topic, n),
                Py.str_of_N (N.of_nat (S i)) ++ lit ". " ++ topic ++ [no_break_space] ++
                lit "(" ++ Py.str_of_N n ++ lit " times)") rows in
      send_message chat (Py.join newline msg_lines) None
  end.

Definition explored_all_msg : str :=
  [127881] ++ lit " You've already explored all top trending topics! Try /news to find more.".

(** Lines 252-271: the trending topics the chat has not asked for, as the
    set that line 271 turns into a list. *)
Definition unexplored (d : database) (chat : str) : gset str :=
  let trending : gset str := list_to_set ((global_topic_frequency d 10).*1) in
  let personal : gset str := list_to_set (distinct_topics d chat) in
  trending ∖ personal.

(** The text of [discover_command] for the list made of that set. *)
Definition discover_msg (topics : list str) : str :=
  match topics with
  | [] => explored_all_msg
  | _ :: _ =>
      Py.join newline
        (([128293] ++ lit " Trending topics you haven't explored yet:") ::
         imap (λ i topic, Py.str_of_N (N.of_nat (S i)) ++ lit ". " ++ topic) topics ++
         [lit "Try /news <topic> to read about these!"])
  end.

(** [list(trending - personal)] enumerates the set in the order of its
    hash table; [elements] stands for that order, on which nothing below
    depends. *)
Definition discover_command (chat : str) : Bot unit :=
  topics ← query (λ d, elements (unexplored d chat));
  send_message chat (discover_msg topics) None.

Definition alert_command (chat : str) (args : list str) : Bot unit :=
  match args with
  | [] =>
      send_message chat
        (lit "Please provide a keyword to subscribe to alerts (e.g., /alert AI)") None
  | _ :: _ =>
      let kw := py_lower (Py.strip py_isspace (Py.join (lit " ") args)) in
      execute (λ d, (subscribe chat kw d, tt));;
      send_message chat
        (lit "Alert set! You'll be notified when '" ++ kw ++
         lit "' appears in future news.") None
  end.

Definition alerts_command (chat : str) : Bot unit :=
  rows ← query (λ d, list_for_chat d chat);
  match rows with
  | [] =>
      send_message chat
        (lit "You don't have any active alerts. Set one using /alert <keyword>!") None
  | _ :: _ =>
      let msg_lines :=
        lit "Your active alert keywords:" ::
        imap (λ i kw, Py.str_of_N (N.of_nat (S i)) ++ lit ". " ++ kw) rows in
      send_message chat (Py.join newline msg_lines) None
  end.

Definition removed_msg (kw : str) : str := lit "Removed alert for '" ++ kw ++ lit "'.".
Definition not_found_msg (kw : str) : str := lit "No alert found for '" ++ kw ++ lit "'.".

Definition removealert_command (chat : str) (args : list str) : Bot unit :=
  match args with
  | [] =>
      send_message chat (lit "Specify the keyword to remove: /removealert <keyword>") None
  | _ :: _ =>
      let kw := py_lower (Py.strip py_isspace (Py.join (lit " ") args)) in
      removed ← execute (unsubscribe chat kw);
      if 0 <? removed then send_message chat (removed_msg kw) None
      else send_message chat (not_found_msg kw) None
  end.

Definition trending_command (chat : str) : Bot unit :=
  rows ← query (λ d, global_topic_frequency d 5);
  match rows with
  | [] =>
      send_message chat
        (lit "No trending topics yet! Be the first to use /news <topic>.") None
  | _ :: _ =>
      let msg_lines :=
        lit "Top trending news topics (all users):" ::
        imap (λ i '(topic, n),
                Py.str_of_N (N.of_nat (S i)) ++ lit ". " ++ topic ++ lit " (" ++
                Py.str_of_N n ++ lit " requests)") rows in
      send_message chat (Py.join newline msg_lines) None
  end.

End Handlers.

(** ** What the matcher is compared with *)

Section Matcher_spec.
Context {U : Unicode}.
Import Re.

(** The characters of [kw] and of [word] are pairwise equal under
    [re.IGNORECASE]. *)
Definition same_text (kw word : str) : Prop :=
  Forall2 (λ k c, re_fold k = re_fold c) kw word.

(** What the pattern of a keyword compiles to. *)
Definition keyword_nodes (kw : str) : list node :=
  AT_BOUNDARY :: (LITERAL <$> kw) ++ [AT_BOUNDARY].

(** The test of line 66 on a keyword and a text. *)
Definition keyword_found (kw news : str) : bool :=
  search_from (keyword_nodes kw) None news.

(** What the pattern [\b], keyword, [\b] looks for: some stretch [word] of
    the text has the characters of the keyword up to case, and [\b] holds
    in front of it and behind it.  This is not yet an occurrence as a
    whole word: [\b] compares the two characters it stands between, so at
    an end of the keyword that is no word character it asks for a word
    character next to the keyword. *)
Definition boundary_occurrence (kw news : str) : Prop :=
  ∃ before word after,
    news = before ++ word ++ after ∧
    same_text kw word ∧
    at_boundary (last before) (head (word ++ after)) = true ∧
    at_boundary (last (before ++ word)) (head after) = true.

(** The keyword occurs in the text as a whole word, case-insensitively:
    some stretch [word] of the text has the characters of the keyword up
    to case, and no word character stands next to it, in front or behind
    (the ends of the text count as no word character). *)
Definition whole_word (kw news : str) : Prop :=
  ∃ before word after,
    news = before ++ word ++ after ∧
    same_text kw word ∧
    word_at (last before) = false ∧
    word_at (head after) = false.

(** What is left of [s] after a stretch equal to [kw] up to case at its
    start. *)
Fixpoint after_prefix (kw s : str) : option str :=
  match kw, s with
  | [], _ => Some s
  | _ :: _, [] => None
  | k :: kw', x :: s' => if same_char k x then after_prefix kw' s' else None
  end.

(** [whole_word], decided: is there such a stretch at the current
    position, [prev] being the character before it, or further on. *)
Definition whole_word_here (kw : str) (prev : option char) (s : str) : bool :=
  negb (word_at prev) &&
  match after_prefix kw s with
  | Some rest => negb (word_at (head rest))
  | None => false
  end.

Fixpoint whole_word_from (kw : str) (prev : option char) (s : str) : bool :=
  whole_word_here kw prev s ||
  match s with
  | [] => false
  | c :: s' => whole_word_from kw (Some c) s'
  end.

Definition alert_for (chat kw : str) : message :=
  {| to := chat; text := alert_text kw; mode := None |}.

(** The messages the loop of [notify_alerts] sends. *)
Fixpoint alerts_for (news : str) (rows : list (str * str))
    (already_notified : gset str) : list message :=
  match rows with
  | [] => []
  | (chat, kw) :: rest =>
      if keyword_found kw news && bool_decide (chat ∉ already_notified) then
        alert_for chat kw :: alerts_for news rest ({[chat]} ∪ already_notified)
      else alerts_for news rest already_notified
  end.

(** The keyword of the first row of [chat], in the order of the rows,
    that the text contains. *)
Fixpoint first_matching_keyword (news chat : str) (rows : list (str * str)) : option str :=
  match rows with
  | [] => None
  | (c, kw) :: rest =>
      if bool_decide (c = chat) && keyword_found kw news then Some kw
      else first_matching_keyword news chat rest
  end.

(** The notice that opens a request (lines 147-151). *)
Definition searching_msg (chat topic : str) : message :=
  {| to := chat;
     text := [128269] ++ lit " Searching GNews and summarizing news for *" ++
             (if bool_decide (topic = lit "top") then lit "Top Headlines"
              else py_capitalize topic) ++ lit "*...";
     mode := Some Markdown |}.

End Matcher_spec.

(** ** Reachable databases *)

(** The databases the handlers can produce: they run no other statement
    that writes than the two inserts and the delete. *)
Inductive reachable : database -> Prop :=
| reachable_empty : reachable empty_db
| reachable_append now chat topic news digest d :
    reachable d -> reachable (append now chat topic news digest d)
| reachable_subscribe chat kw d :
    reachable d -> reachable (subscribe chat kw d)
| reachable_unsubscribe chat kw d :
    reachable d -> reachable (unsubscribe chat kw d).1.

(** The rows of [interactions] stand in ascending id order and no id
    exceeds the counter. *)
Definition rowids_ascending (d : database) : Prop :=
  StronglySorted (λ a b, i_id a < i_id b) (interactions d) ∧
  Forall (λ r, i_id r <= interactions_seq d) (interactions d).

(** ** Orders on the rows of a history *)

(** No row is followed by a strictly more recent one. *)
Definition most_recent_first (rows : list interaction) : Prop :=
  StronglySorted (λ a b, Sql.text_lt (timestamp a) (timestamp b) = false) rows.

(** Among rows of one timestamp, the earlier insert comes first. *)
Definition ties_in_insertion_order (rows : list interaction) : Prop :=
  StronglySorted (λ a b, timestamp a = timestamp b -> i_id a < i_id b) rows.

(** The order in which ties go to the later insert: every row is followed
    only by rows that are older, or as old and of a smaller id. *)
Definition ties_by_descending_key (rows : list interaction) : Prop :=
  StronglySorted
    (λ a b, Sql.text_lt (timestamp b) (timestamp a) = true ∨
            (timestamp a = timestamp b ∧ i_id b < i_id a)) rows.

(** ** Runs used as examples *)

Module Example.

(** A fetch and a digest that succeed, at the second [t]. *)
Definition world_at (t : string) : World := {|
  get_news := λ _, lit "New AI chip announced - Makers say the chip is fast.";
  summarize_with_ai := λ _, lit "A new chip was announced.";
  escape_markdown := λ s, s;
  CHANNEL_ID := [];
  now := lit t
|}.

Definition world : World := world_at "2025-01-01 10:00:00".

(** A fetch that fails: [get_news] without [GNEWS_API_KEY] (line 104). *)
Definition world_without_key : World := {|
  get_news := λ _, lit "Error: GNews API Key not found.";
  summarize_with_ai := λ _, lit "A new chip was announced.";
  escape_markdown := λ s, s;
  CHANNEL_ID := [];
  now := lit "2025-01-01 10:00:00"
|}.

Definition after {A} (m : Bot A) (d : database) : database := store (run m d).2.

Definition sent {A} (m : Bot A) (d : database) : list message := outbox (run m d).2.

Definition news (W : World) (chat : string) (args : list string) : Bot unit :=
  news_command (U := ascii_tables) W (lit chat) (lit <$> args).

(** Chat 42 asks for two topics within one second. *)
Definition two_requests_one_second : database :=
  after (news world "42" ["sports"]) (after (news world "42" ["india"]) empty_db).

(** Chat 42 asks for [a], [a] and [b], a second apart. *)
Definition three_requests : database :=
  after (news (world_at "2025-01-01 10:00:03") "42" ["b"])
    (after (news (world_at "2025-01-01 10:00:02") "42" ["a"])
       (after (news (world_at "2025-01-01 10:00:01") "42" ["a"]) empty_db)).

(** Chat 1 has asked for [a]; nobody else has asked for anything. *)
Definition one_request : database := after (news world "1" ["a"]) empty_db.

(** Chat 1 has asked for [a] and [b], chat 3 for [c] and [d]. *)
Definition four_topics : database :=
  after (news world "3" ["d"])
    (after (news world "3" ["c"])
       (after (news world "1" ["b"]) (after (news world "1" ["a"]) empty_db))).

(** Chat 7 has sent [/alert error]. *)
Definition alert_on_error : database :=
  after (alert_command (U := ascii_tables) (lit "7") [lit "error"]) empty_db.

End Example.

(** ** The two collaborators of a request *)

Module Gnews.

(** Line 100. *)
Definition CATEGORIES : list str :=
  lit <$> ["top"; "business"; "politics"; "sports"; "world"; "health"; "science";
           "technology"]%string.

(** A value under ["title"] or ["description"]: a string or [null]. *)
Inductive json_value :=
| JNull
| JString (s : str).

(** How an f-string renders such a value. *)
Definition format (v : json_value) : str :=
  match v with
  | JNull => lit "None"
  | JString s => s
  end.

(** An element of ["articles"]; [None] is a key the object does not
    have. *)
Record article := {
  title : option json_value;
  description : option json_value
}.

(** What [requests.get] gives for a URL: a response with its status and,
    for the body, the value under ["articles"] ([None] when the key is
    missing), or an exception of the class [RequestException] with its
    text.  The body of a response with status 200 is taken to be a JSON
    object whose ["articles"], when present, is a list of objects. *)
Inductive reply :=
| Response (status_code : N) (articles : option (list article))
| RequestException (e : str).

(** What [get_news] ends with: the text it returns, or the [KeyError] of
    [a['title']], which no [except] of the function catches. *)
Inductive fetched :=
| Text (s : str)
| KeyError.

Definition headlines_url (topic key : str) : str :=
  lit "https://gnews.io/api/v4/top-headlines?category=" ++ topic ++
  lit "&lang=en&country=in&max=5&apikey=" ++ key.

Definition search_url (topic key : str) : str :=
  lit "https://gnews.io/api/v4/search?q=" ++ topic ++
  lit "&lang=en&country=in&max=5&apikey=" ++ key.

(** Line 121 for one article. *)
Definition headline (a : article) : option str :=
  t ← title a;
  Some (format t ++ lit " - " ++
        match description a with
        | Some v => format v
        | None => lit "No description available."
        end).

Definition key_missing : str := lit "Error: GNews API Key not found.".

Definition no_news (topic : str) : str :=
  lit "No news found for '" ++ topic ++ lit "' at the moment.".

(** Lines 102-124; [key] is the environment variable [GNEWS_API_KEY] and
    [http_get url] what the request for [url] gives. *)
Definition get_news (key : option str) (http_get : str -> reply) (topic : str) : fetched :=
  match key with
  | None | Some [] => Text key_missing
  | Some ((_ :: _) as k) =>
      let url :=
        if bool_decide (topic ∈ CATEGORIES) then headlines_url topic k
        else search_url topic k in
      match http_get url with
      | RequestException e =>
          Text (lit "Error: Network issue occurred while contacting GNews: " ++ e)
      | Response status_code articles =>
          if status_code =? 403 then
            Text (lit "Error: Invalid or expired GNews API key (403 Forbidden).")
          else if status_code =? 429 then
            Text (lit "Error: GNews Request limit reached (429 Too Many Requests).")
          else if negb (status_code =? 200) then
            Text (lit "Error: Unexpected response from GNews (status " ++
                  Py.str_of_N status_code ++ lit ").")
          else
            match articles with
            | None | Some [] => Text (no_news topic)
            | Some ((_ :: _) as l) =>
                match mapM headline l with
                | Some titles => Text (Py.join newline titles)
                | None => KeyError
                end
            end
      end
  end.

End Gnews.

Module Gemini.

(** What the call of the model gives: the text of the response, or an
    exception with its text. *)
Inductive generation :=
| Generated (response_text : str)
| Exception (e : str).

Definition system_prompt : str :=
  lit "You are an expert news analyst. Summarize the following news headlines and snippets " ++
  lit "into exactly 5 short, clear, and objective bullet points. Use only the provided context.".

Definition key_missing : str := lit "AI summarization failed: Gemini API Key missing.".

(** Lines 126-140; [key] is the environment variable [GOOGLE_API_KEY] and
    [generate_content contents] what the model gives for [contents]. *)
Definition summarize_with_ai {U : Unicode} (key : option str)
    (generate_content : list str -> generation) (news : str) : str :=
  match key with
  | None | Some [] => key_missing
  | Some (_ :: _) =>
      match generate_content [system_prompt; lit "News Data:" ++ newline ++ news] with
      | Generated response_text => Py.strip py_isspace response_text
      | Exception e => lit "An unexpected error occurred during summarization: " ++ e
      end
  end.

End Gemini.

(** ** The handlers [main] registers *)

(** Lines 372-379: the handler of a command by its name; an update whose
    command has no handler is dropped. *)
Definition dispatch {U : Unicode} (W : World) (command : string) (chat : str)
    (args : list str) : Bot unit :=
  if String.eqb command "news" then news_command W chat args
  else if String.eqb command "history" then history_command chat args
  else if String.eqb command "mytopics" then mytopics_command chat
  else if String.eqb command "alert" then alert_command chat args
  else if String.eqb command "alerts" then alerts_command chat
  else if String.eqb command "removealert" then removealert_command chat args
  else if String.eqb command "trending" then trending_command chat
  else if String.eqb command "discover" then discover_command chat
  else mret tt.

(** The rows of [alerts] stand in ascending id order and no id exceeds
    the counter. *)
Definition alert_ids_ascending (d : database) : Prop :=
  StronglySorted (λ a b, a_id a < a_id b) (alerts d) ∧
  Forall (λ a, a_id a <= alerts_seq d) (alerts d).

(** The sum of the counts of frequency rows. *)
Definition total (rows : list (str * N)) : N := foldr (λ r acc, r.2 + acc) 0 rows.

(** ** The digest of a request *)

Section Digest.
Context {U : Unicode}.

(** Line 146. *)
Definition display_topic (topic : str) : str :=
  if bool_decide (topic = lit "top") then lit "Top Headlines" else py_capitalize topic.

(** Lines 161-165: the text sent for a digest. *)
Definition final_digest (W : World) (topic digest : str) : str :=
  let full :=
    lit "AI News Digest: *" ++ escape_markdown W (display_topic topic) ++ lit "*" ++
    newline ++ newline ++ escape_markdown W digest in
  if (4000 <? length full)%nat then take 3990 full ++ lit "..." else full.

(** Lines 166-179: the reply with the digest and, for a channel id that
    begins with [-100], the same text to the channel. *)
Definition digest_messages (W : World) (chat topic digest : str) : list message :=
  {| to := chat; text := final_digest W topic digest; mode := Some MarkdownV2 |} ::
  if negb (bool_decide (CHANNEL_ID W = [])) && Py.startswith (CHANNEL_ID W) (lit "-100")
  then [{| to := CHANNEL_ID W; text := final_digest W topic digest;
           mode := Some MarkdownV2 |}]
  else [].

End Digest.

(** Line 209. *)
Definition no_history_msg : str := lit "No history found yet. Try /news <topic>!".

(** The keyword [/alert] and [/removealert] make of their arguments (lines
    289 and 317). *)
Definition keyword_of {U : Unicode} (args : list str) : str :=
  py_lower (Py.strip py_isspace (Py.join (lit " ") args)).

(** The prefixes of line 158. *)
Definition summary_guard : list str :=
  [lit "AI summarization failed:"; lit "Gemini AI API error:"].

(** ** The updates the bot handles *)

(** One update with a command: the world at the time, the name of the
    command, in lower case as the dispatcher compares it, the chat it
    comes from and its arguments. *)
Record update := {
  u_world : World;
  u_command : string;
  u_chat : str;
  u_args : list str
}.

(** The database after an update.  An exception that leaves a handler
    is logged by the dispatcher and the bot goes on, with what the handler
    had committed. *)
Definition handle {U : Unicode} (d : database) (u : update) : database :=
  store (run (dispatch (u_world u) (u_command u) (u_chat u) (u_args u)) d).2.

(** The database after the updates [us], handled one after the other,
    from [d]. *)
Definition serve {U : Unicode} (us : list update) (d : database) : database :=
  foldl handle d us.

(** ** Reading a decimal text *)

Module Decimal.

(** One step of [int] on the ASCII tables. *)
Definition step (acc : option N) (c : char) : option N :=
  n ← acc; d ← @py_decimal ascii_tables c; Some (10 * n + d).

End Decimal.

(** ** Further runs used as examples *)

Module Scenario.

Definition key : str := lit "k3y".

(** A reply with one article, whose title begins with [No news]. *)
Definition one_headline (url : str) : Gnews.reply :=
  Gnews.Response 200
    (Some [{| Gnews.title := Some (Gnews.JString (lit "No news is good news"));
              Gnews.description := None |}]).

(** The text of a fetch, for a fetch that ends without [KeyError]. *)
Definition text_of (f : Gnews.fetched) : str :=
  match f with
  | Gnews.Text s => s
  | Gnews.KeyError => []
  end.

(** The world in which the fetch gets that reply. *)
Definition headline_world : World := {|
  get_news := λ topic, text_of (Gnews.get_news (Some key) one_headline topic);
  summarize_with_ai := λ _, lit "A new chip was announced.";
  escape_markdown := λ s, s;
  CHANNEL_ID := [];
  now := lit "2025-01-01 10:00:00"
|}.

Definition quota_exceeded (contents : list str) : Gemini.generation :=
  Gemini.Exception (lit "429 quota exceeded").

(** The world in which the fetch succeeds and the summary is made with
    the Gemini key [gemini_key] by a model that raises. *)
Definition failing_model_world (gemini_key : option str) : World := {|
  get_news := λ _, lit "New AI chip announced - Makers say the chip is fast.";
  summarize_with_ai :=
    Gemini.summarize_with_ai (U := ascii_tables) gemini_key quota_exceeded;
  escape_markdown := λ s, s;
  CHANNEL_ID := lit "-1001234";
  now := lit "2025-01-01 10:00:00"
|}.

(** Chat 1 subscribes to [ai] and to [chip]. *)
Definition two_keywords : database :=
  Example.after (alert_command (U := ascii_tables) (lit "1") [lit "chip"])
    (Example.after (alert_command (U := ascii_tables) (lit "1") [lit "AI"]) empty_db).

(** Chat 1 sends [/alert ai], [/removealert ai] and [/alert ai] again. *)
Definition resubscribed : list update :=
  [{| u_world := Example.world; u_command := "alert"; u_chat := lit "1";
      u_args := [lit "ai"] |};
   {| u_world := Example.world; u_command := "removealert"; u_chat := lit "1";
      u_args := [lit "ai"] |};
   {| u_world := Example.world; u_command := "alert"; u_chat := lit "1";
      u_args := [lit "ai"] |}].

End Scenario.

(** * Properties *)

(** ** The keyword pattern *)

Module Re_facts.
Import Re.

Lemma mem_In c l : mem c l = true <-> In c l.
Proof.
  unfold mem. rewrite existsb_exists. split.
  - intros (x & Hx & Heq). apply N.eqb_eq in Heq. by subst.
  - intros H. exists c. split; [done | apply N.eqb_refl].
Qed.

(** No escaped character is an ASCII letter or digit: the backslash that
    [escape] adds never starts a letter escape. *)
Lemma escaped_not_alnum c :
  mem c escaped_chars = true -> (c =? 98) = false ∧ is_ascii_alnum c = false.
Proof.
  intros H%mem_In.
  assert (Hall : forallb (λ c, negb (c =? 98) && negb (is_ascii_alnum c))
                   escaped_chars = true) by reflexivity.
  rewrite forallb_forall in Hall. specialize (Hall c H).
  apply andb_true_iff in Hall as [H1 H2].
  by rewrite negb_true_iff in H1, H2.
Qed.

(** Every character with a meaning in a pattern is escaped. *)
Lemma unescaped_not_special c :
  mem c escaped_chars = false -> (c =? backslash) = false ∧ mem c special_chars = false.
Proof.
  intros H. split.
  - destruct (N.eqb_spec c backslash) as [->|]; [| done].
    by vm_compute in H.
  - destruct (mem c special_chars) eqn:Hs; [| done].
    apply mem_In in Hs.
    assert (Hall : forallb (λ c, mem c escaped_chars) special_chars = true)
      by reflexivity.
    rewrite forallb_forall in Hall. specialize (Hall c Hs). congruence.
Qed.

(** An escaped text parses as the sequence of its own characters,
    whatever follows it in the pattern. *)
Lemma parse_escape kw p :
  parse (escape kw ++ p) = (λ nodes, (LITERAL <$> kw) ++ nodes) <$> parse p.
Proof.
  induction kw as [|c kw IH]; cbn [escape].
  - simpl. by destruct (parse p).
  - destruct (mem c escaped_chars) eqn:Hc.
    + destruct (escaped_not_alnum c Hc) as [Hb Ha].
      cbn [app parse]. rewrite N.eqb_refl, Hb, Ha, IH.
      by destruct (parse p).
    + destruct (unescaped_not_special c Hc) as [Hb Hs].
      cbn [app parse]. rewrite Hb, Hs, IH.
      by destruct (parse p).
Qed.

Section Matching.
Context {U : Unicode}.

Lemma match_literals kw : ∀ before s nodes,
  match_here ((LITERAL <$> kw) ++ nodes) (last before) s = true <->
  ∃ word after, s = word ++ after ∧ same_text kw word ∧
                match_here nodes (last (before ++ word)) after = true.
Proof.
  induction kw as [|k kw IH]; intros before s nodes.
  - simpl. split.
    + intros H. exists [], s. rewrite app_nil_r. by repeat split; [constructor |].
    + intros (word & after & -> & Hw & H). inversion Hw; subst.
      by rewrite app_nil_r in H.
  - cbn [fmap list_fmap app match_here]. destruct s as [|x s].
    + split; [done |]. intros (word & after & Heq & Hw & _).
      inversion Hw; subst. discriminate.
    + rewrite andb_true_iff. unfold same_char. rewrite N.eqb_eq.
      replace (Some x) with (last (before ++ [x])) by apply last_snoc.
      rewrite (IH (before ++ [x]) s nodes). split.
      * intros (Hk & word & after & -> & Hw & H).
        exists (x :: word), after. rewrite <- app_assoc in H.
        by repeat split; [constructor |].
      * intros (word & after & Heq & Hw & H).
        inversion Hw as [|? c ? word' Hk Hw']; subst.
        injection Heq as -> ->. split; [done |].
        exists word', after. rewrite <- app_assoc. by repeat split.
Qed.

Lemma search_from_spec nodes : ∀ s before,
  search_from nodes (last before) s = true <->
  ∃ skipped rest, s = skipped ++ rest ∧
                  match_here nodes (last (before ++ skipped)) rest = true.
Proof.
  induction s as [|c s IH]; intros before; cbn [search_from];
    rewrite orb_true_iff.
  - split.
    + intros [H | H]; [| done]. exists [], [].
      split; [done | by rewrite app_nil_r].
    + intros (skipped & rest & Heq & H). left.
      symmetry in Heq. apply app_eq_nil in Heq as [-> ->].
      by rewrite app_nil_r in H.
  - replace (Some c) with (last (before ++ [c])) by apply last_snoc.
    rewrite (IH (before ++ [c])). split.
    + intros [H | (skipped & rest & -> & H)].
      * exists [], (c :: s). split; [done | by rewrite app_nil_r].
      * exists (c :: skipped), rest. rewrite <- app_assoc in H. by split.
    + intros (skipped & rest & Heq & H). destruct skipped as [|c' skipped].
      * left. simpl in Heq. subst rest. by rewrite app_nil_r in H.
      * right. injection Heq as <- ->. exists skipped, rest.
        rewrite <- app_assoc. by split.
Qed.

End Matching.

End Re_facts.

(** ** [SELECT DISTINCT] *)

Module Sql_facts.
Import Sql.

Section Distinct.
Context `{EqDecision A}.
Implicit Types (x : A) (seen rows : list A).

Lemma elem_of_distinct_from x rows : ∀ seen,
  x ∈ distinct_from seen rows <-> x ∈ rows ∧ x ∉ seen.
Proof.
  induction rows as [|y rows IH]; intros seen; cbn [distinct_from].
  - set_solver.
  - case_bool_decide as Hy.
    + rewrite IH. set_solver.
    + rewrite elem_of_cons, IH. destruct (decide (x = y)); set_solver.
Qed.

Lemma NoDup_distinct_from rows : ∀ seen, NoDup (distinct_from seen rows).
Proof.
  induction rows as [|y rows IH]; intros seen; cbn [distinct_from].
  - constructor.
  - case_bool_decide; [done |]. constructor; [| done].
    rewrite elem_of_distinct_from. set_solver.
Qed.

Lemma elem_of_distinct x rows : x ∈ distinct rows <-> x ∈ rows.
Proof.
  unfold distinct. rewrite elem_of_distinct_from.
  split; [by intros [? _] | intros ?; split; [done | apply not_elem_of_nil]].
Qed.

(** A row whose value the scan has met before adds nothing. *)
Lemma distinct_from_snoc_seen x rows : ∀ seen,
  x ∈ seen ∨ x ∈ rows ->
  distinct_from seen (rows ++ [x]) = distinct_from seen rows.
Proof.
  induction rows as [|y rows IH]; intros seen Hx; cbn [app distinct_from].
  - destruct Hx as [Hx | Hx]; [| by inversion Hx].
    by rewrite bool_decide_eq_true_2.
  - case_bool_decide as Hy.
    + apply IH. set_solver.
    + f_equal. apply IH. set_solver.
Qed.

End Distinct.

End Sql_facts.

(** ** The notification matcher *)

Section Matcher.
Context {U : Unicode}.
Import Re Re_facts.

Lemma parse_alert_pattern kw : parse (alert_pattern kw) = Some (keyword_nodes kw).
Proof.
  unfold alert_pattern, keyword_nodes.
  change (lit "\b" ++ escape kw ++ lit "\b")
    with (backslash :: 98 :: (escape kw ++ [backslash; 98])).
  cbn [parse]. rewrite N.eqb_refl. change (98 =? 98) with true. cbv iota.
  by rewrite parse_escape.
Qed.

Lemma search_alert_pattern kw news :
  search (alert_pattern kw) news = Some (keyword_found kw news).
Proof. unfold search. by rewrite parse_alert_pattern. Qed.

Lemma keyword_found_spec kw news :
  keyword_found kw news = true <-> boundary_occurrence kw news.
Proof.
  unfold keyword_found, boundary_occurrence, keyword_nodes.
  change None with (last (@nil char)). rewrite search_from_spec. split.
  - intros (before & rest & -> & H). cbn [app] in H.
    cbn [match_here] in H. apply andb_true_iff in H as [Hb H].
    apply match_literals in H as (word & after & -> & Hw & H).
    cbn [match_here] in H. rewrite andb_true_r in H.
    by exists before, word, after.
  - intros (before & word & after & -> & Hw & Hb & Ha).
    exists before, (word ++ after). split; [done |].
    cbn [app match_here]. rewrite Hb. cbn [andb].
    apply match_literals. exists word, after.
    cbn [match_here]. by rewrite andb_true_r.
Qed.

Lemma after_prefix_spec kw : ∀ s rest,
  after_prefix kw s = Some rest <-> ∃ word, s = word ++ rest ∧ same_text kw word.
Proof.
  induction kw as [|k kw IH]; intros s rest; cbn [after_prefix].
  - split.
    + intros [= ->]. exists []. split; [done | constructor].
    + intros (word & -> & Hw). by inversion Hw; subst.
  - destruct s as [|x s].
    + split; [done |]. intros (word & Heq & Hw). inversion Hw; subst. discriminate.
    + unfold same_char. destruct (N.eqb_spec (re_fold k) (re_fold x)) as [Hk | Hk].
      * rewrite IH. split.
        -- intros (word & -> & Hw). exists (x :: word). split; [done | by constructor].
        -- intros (word & Heq & Hw). inversion Hw as [|? c ? word' Hk' Hw']; subst.
           injection Heq as -> ->. by exists word'.
      * split; [done |]. intros (word & Heq & Hw).
        inversion Hw as [|? c ? word' Hk' Hw']; subst. injection Heq as -> ->. done.
Qed.

Lemma whole_word_here_spec kw prev s :
  whole_word_here kw prev s = true <->
  word_at prev = false ∧
  ∃ word after, s = word ++ after ∧ same_text kw word ∧ word_at (head after) = false.
Proof.
  unfold whole_word_here. rewrite andb_true_iff, negb_true_iff.
  apply and_iff_compat_l.
  destruct (after_prefix kw s) as [rest |] eqn:E.
  - rewrite negb_true_iff. apply after_prefix_spec in E as (word & -> & Hw). split.
    + intros Hrest. by exists word, rest.
    + intros (word' & after & Heq & Hw' & Ha).
      assert (Hlen : length word = length word').
      { transitivity (length kw); [symmetry |]; by eapply Forall2_length. }
      apply app_inj_1 in Heq as [_ <-]; done.
  - split; [done |]. intros (word & after & -> & Hw & _).
    assert (Hsome : after_prefix kw (word ++ after) = Some after)
      by (apply after_prefix_spec; by exists word).
    congruence.
Qed.

(** [whole_word_from] decides [whole_word]. *)
Lemma whole_word_from_spec kw : ∀ s before,
  whole_word_from kw (last before) s = true <->
  ∃ skipped word after,
    s = skipped ++ word ++ after ∧ same_text kw word ∧
    word_at (last (before ++ skipped)) = false ∧ word_at (head after) = false.
Proof.
  induction s as [|c s IH]; intros before; cbn [whole_word_from];
    rewrite orb_true_iff, whole_word_here_spec.
  - split.
    + intros [(Hp & word & after & Heq & Hw & Ha) | H]; [| done].
      exists [], word, after. by rewrite app_nil_r.
    + intros (skipped & word & after & Heq & Hw & Hp & Ha). left.
      destruct skipped as [|? ?]; [| done]. rewrite app_nil_r in Hp.
      split; [done |]. by exists word, after.
  - replace (Some c) with (last (before ++ [c])) by apply last_snoc.
    rewrite (IH (before ++ [c])). split.
    + intros [(Hp & word & after & Heq & Hw & Ha) |
              (skipped & word & after & -> & Hw & Hp & Ha)].
      * exists [], word, after. by rewrite app_nil_r.
      * exists (c :: skipped), word, after. rewrite <- app_assoc in Hp. done.
    + intros (skipped & word & after & Heq & Hw & Hp & Ha).
      destruct skipped as [|c' skipped].
      * left. rewrite app_nil_r in Hp. split; [done |]. by exists word, after.
      * right. injection Heq as <- ->. exists skipped, word, after.
        by rewrite <- app_assoc.
Qed.

Lemma whole_word_decide kw news :
  whole_word_from kw None news = true <-> whole_word kw news.
Proof.
  change None with (last (@nil char)). rewrite whole_word_from_spec.
  unfold whole_word. split; intros (before & word & after & Heq & Hw & Hp & Ha);
    exists before, word, after; done.
Qed.

(** Where the claim of whole words and the test of line 66 meet: for a
    keyword whose first and last characters are word characters, and stay
    so in whatever case the text writes them, the test succeeds exactly
    where the keyword occurs as a whole word. *)
Lemma keyword_found_whole_word (first last_ : char) (kw news : str) :
  head kw = Some first -> last kw = Some last_ ->
  (∀ x, re_fold first = re_fold x -> re_word x = true) ->
  (∀ x, re_fold last_ = re_fold x -> re_word x = true) ->
  keyword_found kw news = true <-> whole_word kw news.
Proof.
  intros Hhead Hlast Hfirst Hlast_word. rewrite keyword_found_spec.
  assert (Hends : ∀ word after, same_text kw word ->
            word_at (head (word ++ after)) = true ∧
            ∀ before, word_at (last (before ++ word)) = true).
  { intros word after Hw. split.
    - destruct kw as [|k kw]; [done |]. injection Hhead as ->.
      inversion Hw as [|? x ? ? Hx]; subst. cbn [app head word_at]. auto.
    - intros before. destruct (decide (kw = [])) as [-> | Hne]; [done |].
      destruct (exists_last Hne) as (kw' & k & ->).
      rewrite last_snoc in Hlast. injection Hlast as ->.
      apply Forall2_app_inv_l in Hw as (w & ys & _ & Hy & ->).
      inversion Hy as [|? y ? ? Hky Hnil]; subst. inversion Hnil; subst.
      rewrite app_assoc, last_snoc. cbn [word_at]. auto. }
  unfold boundary_occurrence, whole_word, at_boundary.
  split; intros (before & word & after & -> & Hw & Hb & Ha);
    exists before, word, after;
    destruct (Hends word after Hw) as [Hh Hl]; specialize (Hl before);
    rewrite Hh, Hl in *; (split; [done |]); (split; [done |]).
  - split; [by destruct (word_at (last before)) | by destruct (word_at (head after))].
  - by rewrite Hb, Ha.
Qed.

(** The loop never raises, leaves the database alone and appends
    [alerts_for] to the outbox. *)
Lemma notify_loop_run news rows : ∀ already s,
  notify_loop news rows already s =
  (Returned tt,
   {| store := store s; outbox := outbox s ++ alerts_for news rows already |}).
Proof.
  induction rows as [|[chat kw] rows IH]; intros already s;
    cbn [notify_loop alerts_for].
  - rewrite app_nil_r. by destruct s.
  - rewrite search_alert_pattern.
    destruct (keyword_found kw news && bool_decide (chat ∉ already)).
    + unfold mbind, Bot_bind, send_message. rewrite IH. cbn [store outbox].
      by rewrite <- app_assoc.
    + apply IH.
Qed.

Lemma notify_alerts_run news d :
  run (notify_alerts news) d =
  (Returned tt,
   {| store := d; outbox := alerts_for news (all_subscriptions d) ∅ |}).
Proof.
  unfold run, notify_alerts, mbind, Bot_bind, query. cbn [store].
  by rewrite notify_loop_run.
Qed.

Lemma alerts_for_chat news chat rows : ∀ already,
  filter (λ m, to m = chat) (alerts_for news rows already) =
  if bool_decide (chat ∈ already) then []
  else match first_matching_keyword news chat rows with
       | Some kw => [alert_for chat kw]
       | None => []
       end.
Proof.
  induction rows as [|[c kw] rows IH]; intros already;
    cbn [alerts_for first_matching_keyword].
  - by case_bool_decide.
  - destruct (keyword_found kw news); cbn [andb].
    + destruct (decide (c = chat)) as [-> | Hne].
      * rewrite (bool_decide_eq_true_2 (chat = chat)) by done. cbn [andb].
        destruct (decide (chat ∈ already)) as [Hin | Hout].
        -- rewrite (bool_decide_eq_false_2 (chat ∉ already)) by tauto.
           rewrite IH. by rewrite (bool_decide_eq_true_2 _ Hin).
        -- rewrite (bool_decide_eq_true_2 (chat ∉ already)) by done.
           rewrite (bool_decide_eq_false_2 _ Hout).
           rewrite filter_cons_True by done. rewrite IH.
           rewrite bool_decide_eq_true_2 by set_solver. done.
      * rewrite (bool_decide_eq_false_2 (c = chat)) by done. cbn [andb].
        case_bool_decide as Hc.
        -- rewrite filter_cons_False by done. rewrite IH.
           destruct (decide (chat ∈ already)).
           ++ rewrite !bool_decide_eq_true_2; set_solver.
           ++ rewrite !bool_decide_eq_false_2; set_solver.
        -- apply IH.
    + rewrite andb_false_r. apply IH.
Qed.

End Matcher.

(** ** Duplicate subscription rows *)

Lemma all_subscriptions_subscribe_again chat kw d :
  (chat, kw) ∈ (λ a, (a_chat_id a, keyword a)) <$> alerts d ->
  all_subscriptions (subscribe chat kw d) = all_subscriptions d.
Proof.
  intros Hin. unfold all_subscriptions, subscribe, Sql.distinct. cbn [alerts].
  rewrite fmap_app. cbn [fmap list_fmap a_chat_id keyword].
  apply Sql_facts.distinct_from_snoc_seen. by right.
Qed.

Lemma subscribe_subscribed chat kw d :
  (chat, kw) ∈ (λ a, (a_chat_id a, keyword a)) <$> alerts (subscribe chat kw d).
Proof.
  unfold subscribe. cbn [alerts]. rewrite fmap_app, elem_of_app. right.
  cbn [fmap list_fmap a_chat_id keyword]. apply list_elem_of_here.
Qed.

Lemma all_subscriptions_single chat kw :
  all_subscriptions (subscribe chat kw empty_db) = [(chat, kw)].
Proof.
  unfold all_subscriptions, Sql.distinct. cbn.
  rewrite bool_decide_eq_false_2; [done | apply not_elem_of_nil].
Qed.

Section Matcher_theorems.
Context {U : Unicode}.

Lemma alerts_for_single news chat kw :
  alerts_for news [(chat, kw)] ∅ =
  if keyword_found kw news then [alert_for chat kw] else [].
Proof.
  cbn [alerts_for]. rewrite (bool_decide_eq_true_2 (chat ∉ ∅)) by set_solver.
  by rewrite andb_true_r.
Qed.

(** The test of line 66 and [\b]: the pattern of a keyword compiles to
    the characters of the keyword between two [\b], the search succeeds
    exactly on a [boundary_occurrence], and a registry with the one
    subscription [(chat, kw)] sends its alert exactly then. *)
Lemma keyword_found_is_boundary_occurrence (kw news chat : str) :
  Re.parse (alert_pattern kw) = Some (keyword_nodes kw) ∧
  (Re.search (alert_pattern kw) news = Some true <-> boundary_occurrence kw news) ∧
  (Re.search (alert_pattern kw) news = Some false <-> ¬ boundary_occurrence kw news) ∧
  (alert_for chat kw ∈ outbox (run (notify_alerts news) (subscribe chat kw empty_db)).2
   <-> boundary_occurrence kw news) ∧
  Re.search (U := ascii_tables) (alert_pattern (lit "AI"))
    (lit "AI is transforming airlines") = Some true ∧
  Re.search (U := ascii_tables) (alert_pattern (lit "ai"))
    (lit "AI is transforming airlines") = Some true ∧
  Re.search (U := ascii_tables) (alert_pattern (lit "air"))
    (lit "AI is transforming airlines") = Some false ∧
  Re.search (U := ascii_tables) (alert_pattern (lit "a.c")) (lit "abc") = Some false.
Proof.
  split; [apply parse_alert_pattern |].
  rewrite !search_alert_pattern, <- keyword_found_spec, notify_alerts_run.
  cbn [snd outbox]. rewrite all_subscriptions_single, alerts_for_single.
  repeat split; try reflexivity.
  - by intros [= ->].
  - by intros ->.
  - intros [= H]. by rewrite H.
  - intros H. f_equal. by apply not_true_is_false.
  - destruct (keyword_found kw news); [done |]. by intros ?%elem_of_nil.
  - intros ->. apply list_elem_of_here.
Qed.

(** C3.  One run of the matcher returns, leaves the database as it was and
    sends to each chat at most one alert: the one for the first keyword of
    that chat, in the order of the fetched rows, that the text contains,
    and none when no keyword of the chat is found.  A chat subscribed to
    two keywords that both occur gets the alert for the first and nothing
    else. *)
Theorem one_notification_per_chat (news : str) (d : database) (chat : str) :
  (∃ sent,
     run (notify_alerts news) d = (Returned tt, {| store := d; outbox := sent |}) ∧
     filter (λ m, to m = chat) sent =
       match first_matching_keyword news chat (all_subscriptions d) with
       | Some kw => [alert_for chat kw]
       | None => []
       end) ∧
  (∀ k1 k2, keyword_found k1 news = true -> keyword_found k2 news = true ->
     outbox (run (notify_alerts news)
               (subscribe chat k2 (subscribe chat k1 empty_db))).2 =
     [alert_for chat k1]).
Proof.
  split.
  - eexists. split; [apply notify_alerts_run |].
    by rewrite alerts_for_chat.
  - intros k1 k2 H1 H2. rewrite notify_alerts_run. cbn [snd outbox].
    unfold all_subscriptions, Sql.distinct, subscribe, empty_db.
    cbn [alerts app fmap list_fmap a_chat_id keyword Sql.distinct_from].
    rewrite (bool_decide_eq_false_2 (_ ∈ [])) by apply not_elem_of_nil.
    destruct (bool_decide ((chat, k2) ∈ [(chat, k1)])); cbn [alerts_for];
      rewrite H1, bool_decide_eq_true_2 by set_solver; cbn [andb]; [done |].
    rewrite H2, bool_decide_eq_false_2 by set_solver. done.
Qed.

(** C10.  The matcher reads the subscriptions through [SELECT DISTINCT]:
    the rows it iterates over hold no pair twice, a second row for a pair
    leaves them unchanged, and so the alerts sent for any text are the same
    after subscribing to a keyword twice as after subscribing once, be it
    through the statement or through the [/alert] handler. *)
Theorem duplicate_subscription_same_alerts (news : str) (d : database)
    (chat kw : str) (args : list str) :
  NoDup (all_subscriptions d) ∧
  ((chat, kw) ∈ all_subscriptions d ->
   run (notify_alerts news) (subscribe chat kw d) =
   (Returned tt,
    {| store := subscribe chat kw d; outbox := outbox (run (notify_alerts news) d).2 |})) ∧
  all_subscriptions (subscribe chat kw (subscribe chat kw d)) =
    all_subscriptions (subscribe chat kw d) ∧
  (run (notify_alerts news) (subscribe chat kw (subscribe chat kw d))).1 =
    (run (notify_alerts news) (subscribe chat kw d)).1 ∧
  outbox (run (notify_alerts news) (subscribe chat kw (subscribe chat kw d))).2 =
    outbox (run (notify_alerts news) (subscribe chat kw d)).2 ∧
  (let once := store (run (alert_command chat args) d).2 in
   let twice := store (run (alert_command chat args) once).2 in
   outbox (run (notify_alerts news) twice).2 = outbox (run (notify_alerts news) once).2).
Proof.
  assert (Hsame : ∀ c k d', all_subscriptions (subscribe c k (subscribe c k d')) =
                            all_subscriptions (subscribe c k d')).
  { intros c k d'. apply all_subscriptions_subscribe_again, subscribe_subscribed. }
  split; [apply Sql_facts.NoDup_distinct_from |].
  split.
  { intros Hin. rewrite !notify_alerts_run. cbn [snd outbox].
    rewrite all_subscriptions_subscribe_again; [done |].
    unfold all_subscriptions in Hin. by rewrite Sql_facts.elem_of_distinct in Hin. }
  split; [apply Hsame |].
  rewrite !notify_alerts_run. cbn [fst snd outbox]. rewrite Hsame.
  repeat split.
  destruct args as [|a args]; [done |].
  cbn zeta. rewrite !notify_alerts_run. cbn [snd outbox].
  unfold run, alert_command, mbind, Bot_bind, execute, send_message.
  cbn [store outbox snd]. by rewrite Hsame.
Qed.

End Matcher_theorems.

(** C2.  The test of line 66 is not the occurrence as a whole word for a
    keyword that starts or ends in a character outside [\w].  The keyword
    [c++] occurs as a whole word in [learn c++ today] and is the whole of
    [c++], yet the search fails on both and the subscriber is sent
    nothing; the keyword [.net] occurs in [we use asp.net daily] only
    inside [asp.net], yet the search succeeds and the alert is sent.  The
    keyword is taken literally ([a.c] is not found in [abc]), and on the
    text [AI is transforming airlines] the test and the whole word agree:
    [AI] and [ai] are found, [air] is not. *)
Theorem keyword_beside_punctuation_mismatch :
  (whole_word (U := ascii_tables) (lit "c++") (lit "learn c++ today") ∧
   Re.search (U := ascii_tables) (alert_pattern (lit "c++")) (lit "learn c++ today") =
     Some false ∧
   run (notify_alerts (U := ascii_tables) (lit "learn c++ today"))
     (subscribe (lit "42") (lit "c++") empty_db) =
     (Returned tt,
      {| store := subscribe (lit "42") (lit "c++") empty_db; outbox := [] |})) ∧
  (whole_word (U := ascii_tables) (lit "c++") (lit "c++") ∧
   Re.search (U := ascii_tables) (alert_pattern (lit "c++")) (lit "c++") = Some false) ∧
  (¬ whole_word (U := ascii_tables) (lit ".net") (lit "we use asp.net daily") ∧
   Re.search (U := ascii_tables) (alert_pattern (lit ".net")) (lit "we use asp.net daily") =
     Some true ∧
   run (notify_alerts (U := ascii_tables) (lit "we use asp.net daily"))
     (subscribe (lit "42") (lit ".net") empty_db) =
     (Returned tt,
      {| store := subscribe (lit "42") (lit ".net") empty_db;
         outbox := [alert_for (lit "42") (lit ".net")] |})) ∧
  (whole_word (U := ascii_tables) (lit "AI") (lit "AI is transforming airlines") ∧
   Re.search (U := ascii_tables) (alert_pattern (lit "AI"))
     (lit "AI is transforming airlines") = Some true ∧
   whole_word (U := ascii_tables) (lit "ai") (lit "AI is transforming airlines") ∧
   Re.search (U := ascii_tables) (alert_pattern (lit "ai"))
     (lit "AI is transforming airlines") = Some true ∧
   ¬ whole_word (U := ascii_tables) (lit "air") (lit "AI is transforming airlines") ∧
   Re.search (U := ascii_tables) (alert_pattern (lit "air"))
     (lit "AI is transforming airlines") = Some false) ∧
  (¬ whole_word (U := ascii_tables) (lit "a.c") (lit "abc") ∧
   Re.search (U := ascii_tables) (alert_pattern (lit "a.c")) (lit "abc") = Some false).
Proof.
  repeat match goal with
         | |- _ ∧ _ => split
         | |- whole_word _ _ => apply whole_word_decide; vm_compute; reflexivity
         | |- ¬ whole_word _ _ => rewrite <- whole_word_decide; vm_compute; discriminate
         | |- Re.search _ _ = _ => rewrite search_alert_pattern; vm_compute; reflexivity
         | |- run (notify_alerts _) _ = _ =>
             rewrite notify_alerts_run, all_subscriptions_single, alerts_for_single;
             vm_compute; reflexivity
         end.
Qed.

(** ** [ORDER BY], [GROUP BY] *)

Module Order_facts.
Import Sql.

(** [text_lt] decides the lexicographic order of the code points. *)
Lemma text_lt_lexico (a b : list N) : text_lt a b = true <-> lexico a b.
Proof.
  revert b. induction a as [|x a IH]; intros [|y b]; cbn [text_lt]; try done.
  change (lexico (x :: a) (y :: b)) with (lexico x y ∨ x = y ∧ lexico a b).
  rewrite orb_true_iff, andb_true_iff, N.ltb_lt, N.eqb_eq, IH. done.
Qed.

Lemma text_lt_irrefl (a : list N) : text_lt a a = false.
Proof.
  apply not_true_is_false. rewrite text_lt_lexico. apply irreflexivity, _.
Qed.

Lemma text_lt_asym (a b : list N) : text_lt a b = true -> text_lt b a = false.
Proof.
  intros H. apply not_true_is_false. rewrite text_lt_lexico in *.
  intros H'. apply (irreflexivity lexico a). by transitivity b.
Qed.

(** The order is total: [b <= a] and [c <= b] give [c <= a]. *)
Lemma text_lt_neg_trans (a b c : list N) :
  text_lt a b = false -> text_lt b c = false -> text_lt a c = false.
Proof.
  intros Hab Hbc. apply not_true_is_false. intros Hac.
  apply not_true_iff_false in Hab, Hbc. rewrite text_lt_lexico in *.
  destruct (trichotomy lexico a b) as [? | [-> | Hba]]; [done | done |].
  destruct (trichotomy lexico b c) as [? | [-> | Hcb]]; [done | done |].
  apply (irreflexivity lexico a). transitivity c; [done |]. by transitivity b.
Qed.

Section Order.
Context {A : Type} (before : A -> A -> bool).

Lemma place_perm x l : place before x l ≡ₚ x :: l.
Proof.
  induction l as [|y l IH]; cbn [place]; [done |].
  destruct (before y x); [| done]. rewrite IH. apply Permutation_swap.
Qed.

Lemma order_by_perm l : order_by before l ≡ₚ l.
Proof.
  induction l as [|x l IH]; [done |].
  unfold order_by in *. cbn [foldr]. by rewrite place_perm, IH.
Qed.

Hypothesis before_asym : ∀ x y, before x y = true -> before y x = false.
Hypothesis before_neg_trans :
  ∀ x y z, before y x = false -> before z y = false -> before z x = false.

Lemma place_sorted x l :
  StronglySorted (in_order before) l -> StronglySorted (in_order before) (place before x l).
Proof.
  induction 1 as [|y l Hl IH Hy]; cbn [place]; [repeat constructor |].
  destruct (before y x) eqn:Hyx.
  - constructor; [done |]. rewrite place_perm. constructor; [| done].
    by apply before_asym.
  - constructor; [by constructor |]. constructor; [done |].
    eapply Forall_impl; [exact Hy |]. intros z Hz. by eapply before_neg_trans.
Qed.

Lemma order_by_sorted l : StronglySorted (in_order before) (order_by before l).
Proof.
  induction l as [|x l IH]; [constructor |].
  unfold order_by in *. cbn [foldr]. by apply place_sorted.
Qed.

End Order.

(** The part of a sorted result that [LIMIT] keeps and the part it drops. *)
Lemma limit_prefix {A} (n : N) (l : list A) : ∃ rest, limit n l ++ rest = l.
Proof. exists (drop (N.to_nat n) l). apply take_drop. Qed.

Lemma limit_length {A} (n : N) (l : list A) :
  N.of_nat (length (limit n l)) = N.min n (N.of_nat (length l)).
Proof. unfold limit. rewrite length_take. lia. Qed.

End Order_facts.

(** ** Reachable databases keep their rows in id order *)

Lemma rowids_ascending_reachable d : reachable d -> rowids_ascending d.
Proof.
  unfold rowids_ascending.
  induction 1 as [| now chat topic news digest d _ [IHs IHb] | |];
    cbn [interactions interactions_seq append subscribe unsubscribe fst empty_db];
    try done.
  - split; constructor.
  - rewrite Forall_forall in IHb. split.
    + apply StronglySorted_app_2; [| done | repeat constructor].
      intros x y Hx ->%list_elem_of_singleton. cbn [i_id].
      specialize (IHb x Hx). lia.
    + apply Forall_app. split.
      * apply Forall_forall. intros x Hx. specialize (IHb x Hx). lia.
      * repeat constructor. cbn [i_id]. lia.
Qed.

Lemma StronglySorted_filter {A} (R : relation A) (P : A -> Prop)
    `{∀ x, Decision (P x)} (l : list A) :
  StronglySorted R l -> StronglySorted R (filter P l).
Proof.
  induction 1 as [|x l Hl IH Hx]; [constructor |].
  rewrite filter_cons. destruct (decide (P x)); [| done].
  constructor; [done |]. rewrite Forall_forall in *.
  intros y [_ Hy]%list_elem_of_filter. by apply Hx.
Qed.

Lemma rows_of_chat_ids chat d :
  rowids_ascending d ->
  StronglySorted (λ a b, i_id a < i_id b) (rows_of_chat chat d).
Proof. intros [Hs _]. by apply StronglySorted_filter. Qed.

Lemma StronglySorted_impl {A} (R1 R2 : relation A) (l : list A) :
  (∀ a b, R1 a b -> R2 a b) -> StronglySorted R1 l -> StronglySorted R2 l.
Proof.
  intros HR. induction 1 as [|x l Hl IH Hx]; constructor; [done |].
  eapply Forall_impl; [exact Hx | auto].
Qed.

(** [ORDER BY] on rows that come in the order [R]: rows that the requested
    order does not put apart are still in the order [R]. *)
Lemma place_keeps_ties {A} (before : A -> A -> bool) (R : relation A) x l :
  Forall (R x) l ->
  StronglySorted (λ a b, before a b = false -> R a b) l ->
  StronglySorted (λ a b, before a b = false -> R a b) (Sql.place before x l).
Proof.
  intros Hx. induction 1 as [|y l Hl IH Hy]; cbn [Sql.place]; [repeat constructor |].
  apply Forall_cons in Hx as [Hxy Hx].
  destruct (before y x) eqn:Hyx.
  - constructor; [by apply IH |]. rewrite Order_facts.place_perm.
    constructor; [congruence | done].
  - constructor; [by constructor |]. constructor; [done |].
    eapply Forall_impl; [exact Hx | auto].
Qed.

Lemma order_by_keeps_ties {A} (before : A -> A -> bool) (R : relation A) l :
  StronglySorted R l ->
  StronglySorted (λ a b, before a b = false -> R a b) (Sql.order_by before l).
Proof.
  induction 1 as [|x l Hl IH Hx]; [constructor |].
  change (Sql.order_by before (x :: l))
    with (Sql.place before x (Sql.order_by before l)).
  apply place_keeps_ties; [| done].
  by rewrite Order_facts.order_by_perm.
Qed.

(** ** The history of a chat *)

(** What the statement of lines 198-204 returns in a database the
    handlers have produced: the first [n] rows, or all of them when there
    are fewer, of an arrangement of the rows of the chat in which no row
    is followed by a more recent one.  The statement orders by the
    timestamp alone, so rows of one timestamp are left as the scan finds
    them, the smaller id first. *)
Lemma recent_most_recent_first (d : database) (chat : str) (n : N) :
  reachable d ->
  ∃ dropped,
    recent d chat n ++ dropped ≡ₚ rows_of_chat chat d ∧
    most_recent_first (recent d chat n ++ dropped) ∧
    ties_in_insertion_order (recent d chat n ++ dropped) ∧
    N.of_nat (length (recent d chat n)) =
      N.min n (N.of_nat (length (rows_of_chat chat d))).
Proof.
  intros Hd. unfold recent.
  set (before := λ y x : interaction, Sql.text_lt (timestamp x) (timestamp y)).
  destruct (Order_facts.limit_prefix n (Sql.order_by before (rows_of_chat chat d)))
    as [dropped Hdrop].
  exists dropped. rewrite Hdrop. split; [apply Order_facts.order_by_perm |].
  split; [| split].
  - apply (Order_facts.order_by_sorted before).
    + intros x y. apply Order_facts.text_lt_asym.
    + intros x y z Hyx Hzy. unfold before in *.
      by apply (Order_facts.text_lt_neg_trans _ (timestamp y)).
  - eapply StronglySorted_impl;
      [| apply (order_by_keeps_ties before), rows_of_chat_ids,
           rowids_ascending_reachable, Hd].
    intros a b Hab Ht. apply Hab. unfold before. rewrite Ht.
    apply Order_facts.text_lt_irrefl.
  - rewrite Order_facts.limit_length. f_equal. f_equal.
    apply Permutation_length, Order_facts.order_by_perm.
Qed.

(** C4.  Two requests of chat 42 are logged within one second, [india]
    under id 1 and then [sports] under id 2.  The history of the chat
    lists them with the earlier insert first, so ties do not go by
    descending id, and with the limit 1 the row kept is the older one:
    [/history 1] shows the request for [india], not the last request. *)
Theorem same_second_history_keeps_older_request :
  reachable Example.two_requests_one_second ∧
  (λ r, (i_id r, input_topic r, timestamp r)) <$>
    rows_of_chat (lit "42") Example.two_requests_one_second =
    [(1, lit "india", lit "2025-01-01 10:00:00");
     (2, lit "sports", lit "2025-01-01 10:00:00")] ∧
  (λ r, (i_id r, input_topic r)) <$> recent Example.two_requests_one_second (lit "42") 2 =
    [(1, lit "india"); (2, lit "sports")] ∧
  ¬ ties_by_descending_key (recent Example.two_requests_one_second (lit "42") 2) ∧
  (λ r, (i_id r, input_topic r)) <$> recent Example.two_requests_one_second (lit "42") 1 =
    [(1, lit "india")] ∧
  Example.sent (history_command (U := ascii_tables) (lit "42") [lit "1"])
    Example.two_requests_one_second =
    [{| to := lit "42";
        text := lit "Your last 1 news requests:" ++ newline ++ newline ++
                lit "1. [2025-01-01 10:00:00] Topic: india" ++ newline ++
                lit "   Summary: A new chip was announced....";
        mode := Some Markdown |}].
Proof.
  split; [| split; [reflexivity | split; [reflexivity | split]]].
  - change (reachable
              (append (now Example.world) (lit "42") (lit "sports")
                 (get_news Example.world (lit "sports"))
                 (summarize_with_ai Example.world (get_news Example.world (lit "sports")))
                 (append (now Example.world) (lit "42") (lit "india")
                    (get_news Example.world (lit "india"))
                    (summarize_with_ai Example.world (get_news Example.world (lit "india")))
                    empty_db))).
    repeat constructor.
  - intros Hs. apply StronglySorted_inv in Hs as [_ Hs].
    apply Forall_cons in Hs as [[Hlt | [_ Hid]] _].
    + by vm_compute in Hlt.
    + by vm_compute in Hid.
  - split; by vm_compute.
Qed.

(** ** Topic counts *)

Module Group_facts.
Import Sql.

Lemma elem_of_group_count (keys : list str) (t : str) (c : N) :
  (t, c) ∈ group_count keys <-> t ∈ keys ∧ c = count t keys.
Proof.
  unfold group_count, group_keys. rewrite list_elem_of_fmap. split.
  - intros (k & [= -> ->] & Hk).
    rewrite Order_facts.order_by_perm, Sql_facts.elem_of_distinct in Hk. done.
  - intros [Ht ->]. exists t. split; [done |].
    by rewrite Order_facts.order_by_perm, Sql_facts.elem_of_distinct.
Qed.

Lemma group_count_keys (keys : list str) : (group_count keys).*1 = group_keys keys.
Proof.
  unfold group_count. rewrite <- list_fmap_compose.
  induction (group_keys keys) as [|k l IH]; [done |].
  cbn [fmap list_fmap]. by rewrite IH.
Qed.

Lemma NoDup_group_count (keys : list str) : NoDup (group_count keys).*1.
Proof.
  rewrite group_count_keys. unfold group_keys.
  rewrite Order_facts.order_by_perm. apply Sql_facts.NoDup_distinct_from.
Qed.

Lemma by_count_desc_perm rows : by_count_desc rows ≡ₚ rows.
Proof. apply Order_facts.order_by_perm. Qed.

Lemma by_count_desc_sorted rows :
  StronglySorted (λ a b : str * N, b.2 <= a.2) (by_count_desc rows).
Proof.
  eapply StronglySorted_impl; [| apply Order_facts.order_by_sorted].
  - intros a b. unfold in_order. cbn beta. rewrite N.ltb_ge. done.
  - intros x y. rewrite N.ltb_lt, N.ltb_ge. lia.
  - intros x y z. rewrite !N.ltb_ge. lia.
Qed.

(** What a frequency query returns, with the rows its [LIMIT] drops. *)
Lemma frequency_rows (keys : list str) (n : N) :
  ∃ dropped,
    (∀ t c, (t, c) ∈ limit n (by_count_desc (group_count keys)) ++ dropped <->
            t ∈ keys ∧ c = count t keys) ∧
    NoDup (limit n (by_count_desc (group_count keys)) ++ dropped).*1 ∧
    StronglySorted (λ a b : str * N, b.2 <= a.2)
      (limit n (by_count_desc (group_count keys)) ++ dropped) ∧
    N.of_nat (length (limit n (by_count_desc (group_count keys)))) =
      N.min n (N.of_nat (length (distinct keys))).
Proof.
  destruct (Order_facts.limit_prefix n (by_count_desc (group_count keys)))
    as [dropped Hdrop].
  exists dropped. rewrite Hdrop. repeat split.
  - rewrite by_count_desc_perm, elem_of_group_count in H. tauto.
  - rewrite by_count_desc_perm, elem_of_group_count in H. tauto.
  - intros [Ht ->]. by rewrite by_count_desc_perm, elem_of_group_count.
  - rewrite by_count_desc_perm. apply NoDup_group_count.
  - apply by_count_desc_sorted.
  - rewrite Order_facts.limit_length. f_equal. f_equal.
    rewrite by_count_desc_perm. unfold group_count, group_keys.
    rewrite length_fmap. apply Permutation_length, Order_facts.order_by_perm.
Qed.

End Group_facts.

Lemma topic_of_chat (d : database) (chat t : str) :
  t ∈ input_topic <$> rows_of_chat chat d <->
  ∃ r, r ∈ interactions d ∧ i_chat_id r = chat ∧ input_topic r = t.
Proof.
  unfold rows_of_chat. rewrite list_elem_of_fmap.
  setoid_rewrite list_elem_of_filter. naive_solver.
Qed.

Lemma count_of_chat (d : database) (chat t : str) :
  Sql.count t (input_topic <$> rows_of_chat chat d) =
  N.of_nat (length (filter (λ r, i_chat_id r = chat ∧ input_topic r = t) (interactions d))).
Proof.
  unfold Sql.count, rows_of_chat. f_equal.
  induction (interactions d) as [|r l IH]; [done |].
  rewrite (filter_cons (λ r, i_chat_id r = chat)).
  rewrite (filter_cons (λ r, i_chat_id r = chat ∧ input_topic r = t)).
  destruct (decide (i_chat_id r = chat)) as [Hc | Hc].
  - rewrite fmap_cons, filter_cons.
    destruct (decide (input_topic r = t)) as [Ht | Ht].
    + rewrite decide_True by done. cbn [length]. by rewrite IH.
    + rewrite decide_False by tauto. done.
  - rewrite decide_False by tauto. done.
Qed.

(** C9.  [topic_frequency d chat n] is the first [n] rows, or all of them
    when there are fewer, of a list that holds one pair for each topic of
    a row whose [chat_id] is the chat, with the number of the rows of that
    chat and that topic, in descending order of that number; for a chat
    that asked for [a], [a] and [b] it is [(a, 2)] followed by [(b, 1)],
    which is also what [/mytopics] shows. *)
Theorem topic_frequency_counts (d : database) (chat : str) (n : N) :
  (∃ dropped,
     (∀ t c, (t, c) ∈ topic_frequency d chat n ++ dropped <->
             (∃ r, r ∈ interactions d ∧ i_chat_id r = chat ∧ input_topic r = t) ∧
             c = N.of_nat (length (filter (λ r, i_chat_id r = chat ∧ input_topic r = t)
                                     (interactions d)))) ∧
     NoDup (topic_frequency d chat n ++ dropped).*1 ∧
     StronglySorted (λ a b : str * N, b.2 <= a.2) (topic_frequency d chat n ++ dropped) ∧
     N.of_nat (length (topic_frequency d chat n)) =
       N.min n (N.of_nat (length (distinct_topics d chat)))) ∧
  (λ r, (i_chat_id r, input_topic r)) <$> interactions Example.three_requests =
    [(lit "42", lit "a"); (lit "42", lit "a"); (lit "42", lit "b")] ∧
  topic_frequency Example.three_requests (lit "42") 5 = [(lit "a", 2); (lit "b", 1)] ∧
  Example.sent (mytopics_command (lit "42")) Example.three_requests =
    [{| to := lit "42";
        text := lit "Your top requested news topics:" ++ newline ++
                lit "1. a" ++ [no_break_space] ++ lit "(2 times)" ++ newline ++
                lit "2. b" ++ [no_break_space] ++ lit "(1 times)";
        mode := None |}].
Proof.
  split; [| repeat split; reflexivity].
  destruct (Group_facts.frequency_rows (input_topic <$> rows_of_chat chat d) n)
    as (dropped & Hrows & Hrest).
  exists dropped. split; [| exact Hrest].
  intros t c. fold (topic_frequency d chat n) in Hrows.
  by rewrite Hrows, topic_of_chat, count_of_chat.
Qed.

(** ** Discover *)

Lemma elem_of_unexplored (d : database) (chat t : str) :
  t ∈ unexplored d chat <->
  t ∈ (global_topic_frequency d 10).*1 ∧ t ∉ distinct_topics d chat.
Proof. unfold unexplored. by rewrite elem_of_difference, !elem_of_list_to_set. Qed.

Lemma elem_of_distinct_topics (d : database) (chat t : str) :
  t ∈ distinct_topics d chat <->
  ∃ r, r ∈ interactions d ∧ i_chat_id r = chat ∧ input_topic r = t.
Proof.
  unfold distinct_topics, rows_of_chat.
  rewrite Sql_facts.elem_of_distinct, list_elem_of_fmap.
  setoid_rewrite list_elem_of_filter. naive_solver.
Qed.

(** A trending topic is the topic of some row. *)
Lemma trending_is_requested (d : database) (n : N) (t : str) :
  t ∈ (global_topic_frequency d n).*1 -> t ∈ input_topic <$> interactions d.
Proof.
  unfold global_topic_frequency. intros (p & -> & Hp)%list_elem_of_fmap.
  apply (subseteq_take (N.to_nat n)) in Hp.
  rewrite Group_facts.by_count_desc_perm in Hp. destruct p as [t c].
  by apply Group_facts.elem_of_group_count in Hp as [Ht _].
Qed.

Lemma discover_command_run (chat : str) (d : database) :
  run (discover_command chat) d =
  (Returned tt,
   {| store := d;
      outbox := [{| to := chat; text := discover_msg (elements (unexplored d chat));
                    mode := None |}] |}).
Proof. reflexivity. Qed.

(** The text for a listing that is not empty starts with another
    character than the text for the empty one. *)
Lemma discover_msg_listing (t : str) (l : list str) : discover_msg (t :: l) ≠ explored_all_msg.
Proof.
  unfold discover_msg, explored_all_msg. cbn [imap app Py.join].
  intros [=].
Qed.

(** C8 (amended).  The topics [/discover] lists are the ten most requested
    topics less the topics the chat has asked for, enumerated in some order
    without repetition.  When the chat has asked for every one of the ten,
    nothing is left and the chat is told that it has explored everything;
    the same message goes out when the table holds no row at all, and no
    other case produces it.  With top topics [a], [b], [c], [d], a chat
    that has asked for [a] and [b] is left with [c] and [d]. *)
Theorem discover_set_difference (d : database) (chat : str) :
  (∀ t, t ∈ unexplored d chat <->
        t ∈ (global_topic_frequency d 10).*1 ∧
        ¬ ∃ r, r ∈ interactions d ∧ i_chat_id r = chat ∧ input_topic r = t) ∧
  (∃ listing,
     NoDup listing ∧ (∀ t, t ∈ listing <-> t ∈ unexplored d chat) ∧
     run (discover_command chat) d =
       (Returned tt,
        {| store := d;
           outbox := [{| to := chat; text := discover_msg listing; mode := None |}] |})) ∧
  ((∀ t, t ∈ (global_topic_frequency d 10).*1 -> t ∈ distinct_topics d chat) ->
   unexplored d chat = ∅ ∧
   text <$> outbox (run (discover_command chat) d).2 = [explored_all_msg]) ∧
  (interactions d = [] ->
   text <$> outbox (run (discover_command chat) d).2 = [explored_all_msg]) ∧
  (text <$> outbox (run (discover_command chat) d).2 = [explored_all_msg] ->
   unexplored d chat = ∅) ∧
  unexplored Example.four_topics (lit "1") = {[lit "c"; lit "d"]}.
Proof.
  assert (Hempty : unexplored d chat = ∅ ->
                   text <$> outbox (run (discover_command chat) d).2 = [explored_all_msg]).
  { intros He. rewrite discover_command_run. cbn [snd outbox fmap list_fmap text].
    by rewrite He, elements_empty. }
  split; [| split; [| split; [| split; [| split]]]].
  - intros t. by rewrite elem_of_unexplored, elem_of_distinct_topics.
  - exists (elements (unexplored d chat)). split; [apply NoDup_elements |].
    split; [intros t; apply elem_of_elements | apply discover_command_run].
  - intros Hall. assert (He : unexplored d chat = ∅).
    { apply set_eq. intros t. rewrite elem_of_unexplored. set_solver. }
    by split; [| apply Hempty].
  - intros Hnone. apply Hempty, set_eq. intros t. rewrite elem_of_unexplored.
    split; [| by intros ?%elem_of_empty]. intros [Ht%trending_is_requested _].
    rewrite Hnone in Ht. by apply elem_of_nil in Ht.
  - rewrite discover_command_run. cbn [snd outbox fmap list_fmap text].
    intros [= Hmsg]. destruct (elements (unexplored d chat)) as [|t l] eqn:E.
    + by apply elements_empty_inv, leibniz_equiv in E.
    + by apply discover_msg_listing in Hmsg.
  - reflexivity.
Qed.

(** C8, as stated, fails: a chat without history is not told what a chat
    that has explored everything is told; it is shown the topics of the
    others. *)
Lemma discover_without_history_lists_topics :
  rows_of_chat (lit "2") Example.one_request = [] ∧
  unexplored Example.one_request (lit "1") = ∅ ∧
  text <$> Example.sent (discover_command (lit "1")) Example.one_request =
    [explored_all_msg] ∧
  unexplored Example.one_request (lit "2") = {[lit "a"]} ∧
  text <$> Example.sent (discover_command (lit "2")) Example.one_request ≠
    text <$> Example.sent (discover_command (lit "1")) Example.one_request.
Proof. repeat split; try reflexivity. by vm_compute. Qed.

(** ** A news request *)

Section News.
Context {U : Unicode}.

Lemma notify_alerts_state (news : str) (s : state) :
  notify_alerts news s =
  (Returned tt,
   {| store := store s;
      outbox := outbox s ++ alerts_for news (all_subscriptions (store s)) ∅ |}).
Proof.
  unfold notify_alerts, mbind, Bot_bind, query. by rewrite notify_loop_run.
Qed.

(** A request whose fetch fails: the handler returns, the database is as
    before, and the outbox holds the notice of the search, the alerts of
    the matcher run on the fetched text, and that text as it is. *)
Lemma news_command_fetch_failed (W : World) (chat : str) (args : list str) (d : database) :
  Py.startswith_any (get_news W (requested_topic args)) [lit "Error:"; lit "No news"] = true ->
  run (news_command W chat args) d =
  (Returned tt,
   {| store := d;
      outbox :=
        searching_msg chat (requested_topic args) ::
        alerts_for (get_news W (requested_topic args)) (all_subscriptions d) ∅ ++
        [{| to := chat; text := get_news W (requested_topic args); mode := None |}] |}).
Proof.
  intros Hfail. unfold run, news_command, mbind, Bot_bind.
  cbn [send_message store outbox app]. rewrite notify_alerts_state, Hfail.
  reflexivity.
Qed.

(** A request leaves the database as it was or adds the row of the
    request. *)
Lemma news_command_store (W : World) (chat : str) (args : list str) (d : database) :
  let topic := requested_topic args in
  let news := get_news W topic in
  store (run (news_command W chat args) d).2 = d ∨
  store (run (news_command W chat args) d).2 =
    append (now W) chat topic news (summarize_with_ai W news) d.
Proof.
  cbn zeta. unfold run, news_command, mbind, Bot_bind.
  cbn [send_message store outbox app]. rewrite notify_alerts_state.
  destruct (Py.startswith_any (get_news W _) _); [by left |].
  destruct (Py.startswith_any (summarize_with_ai W _) _); [by left |].
  right. cbn [send_message store outbox].
  by destruct (negb _ && _).
Qed.

Lemma news_command_reachable (W : World) (chat : str) (args : list str) (d : database) :
  reachable d -> reachable (store (run (news_command W chat args) d).2).
Proof.
  intros Hd. destruct (news_command_store W chat args d) as [-> | ->]; [done |].
  by constructor.
Qed.

Lemma alert_command_reachable (chat : str) (args : list str) (d : database) :
  reachable d -> reachable (store (run (alert_command chat args) d).2).
Proof. intros Hd. destruct args; [done |]. by constructor. Qed.

Lemma removealert_command_reachable (chat : str) (args : list str) (d : database) :
  reachable d -> reachable (store (run (removealert_command chat args) d).2).
Proof.
  intros Hd. destruct args as [|a args]; [done |].
  unfold run, removealert_command, mbind, Bot_bind, execute. cbn [store outbox].
  match goal with |- context [unsubscribe ?c ?k d] =>
    assert (Hr := reachable_unsubscribe c k d Hd);
    destruct (unsubscribe c k d) as [d' removed] end.
  cbn [fst] in Hr. by destruct (0 <? removed).
Qed.

End News.

(** C1.  A request whose fetch fails still goes through the matcher: with
    the subscription of chat 7 to [error] and [get_news] returning the
    text of line 104, chat 7 is sent an alert for [error].  The text then
    goes to the requesting chat as it is and no row is added. *)
Theorem fetch_failure_still_matched :
  get_news Example.world_without_key (lit "sports") =
    lit "Error: GNews API Key not found." ∧
  Py.startswith_any (lit "Error: GNews API Key not found.")
    [lit "Error:"; lit "No news"] = true ∧
  all_subscriptions Example.alert_on_error = [(lit "7", lit "error")] ∧
  Example.sent (Example.news Example.world_without_key "42" ["sports"])
    Example.alert_on_error =
    [searching_msg (U := ascii_tables) (lit "42") (lit "sports");
     alert_for (lit "7") (lit "error");
     {| to := lit "42"; text := lit "Error: GNews API Key not found."; mode := None |}] ∧
  Example.after (Example.news Example.world_without_key "42" ["sports"])
    Example.alert_on_error = Example.alert_on_error.
Proof. repeat split; reflexivity. Qed.

(** C5.  A request without a topic stores [India], capital letter
    included, while [/news India] stores [india]: the fallback of line 145
    is applied after the lower-casing. *)
Theorem default_topic_not_lower_cased :
  requested_topic (U := ascii_tables) [] = lit "India" ∧
  input_topic <$> interactions (Example.after (Example.news Example.world "42" []) empty_db) =
    [lit "India"] ∧
  @py_lower ascii_tables (lit "India") = lit "india" ∧
  lit "India" ≠ lit "india" ∧
  input_topic <$>
    interactions (Example.after (Example.news Example.world "42" ["India"]) empty_db) =
    [lit "india"].
Proof. repeat split; try reflexivity. by vm_compute. Qed.

(** C7.  [/history 0] asks the store for no row at all: [0] passes
    [isdigit], and a chat with three rows is told that it has no history.
    A missing argument, a negative number and a word give 3. *)
Theorem history_limit_zero :
  history_limit (U := ascii_tables) [lit "0"] = 0 ∧
  length (rows_of_chat (lit "42") Example.three_requests) = 3%nat ∧
  recent Example.three_requests (lit "42") 0 = [] ∧
  text <$> Example.sent (history_command (U := ascii_tables) (lit "42") [lit "0"])
             Example.three_requests =
    [lit "No history found yet. Try /news <topic>!"] ∧
  history_limit (U := ascii_tables) [] = 3 ∧
  history_limit (U := ascii_tables) [lit "-5"] = 3 ∧
  history_limit (U := ascii_tables) [lit "abc"] = 3 ∧
  history_limit (U := ascii_tables) [lit "5"] = 5.
Proof. repeat split; reflexivity. Qed.

(** ** Removing a subscription *)

Section Unsubscribe.
Context {U : Unicode}.

Lemma unsubscribe_again (chat kw : str) (d : database) :
  (unsubscribe chat kw (unsubscribe chat kw d).1).2 = 0.
Proof.
  cbn [unsubscribe fst snd alerts].
  assert (H : filter (subscribed chat kw)
                (filter (λ a, ¬ subscribed chat kw a) (alerts d)) = []).
  { induction (alerts d) as [|a l IH]; [done |].
    rewrite (filter_cons (λ a, ¬ subscribed chat kw a)).
    destruct (decide (¬ subscribed chat kw a)); [| done].
    by rewrite filter_cons_False. }
  by rewrite H.
Qed.

Lemma unsubscribe_count_subscribe (chat kw : str) (d : database) :
  (unsubscribe chat kw (subscribe chat kw d)).2 = (unsubscribe chat kw d).2 + 1.
Proof.
  cbn [unsubscribe subscribe fst snd alerts].
  rewrite filter_app, length_app, filter_cons_True by done.
  rewrite filter_nil. cbn [length]. lia.
Qed.

Lemma unsubscribe_none (chat kw : str) (d : database) :
  (unsubscribe chat kw d).2 = 0 <-> ∀ a, a ∈ alerts d -> ¬ subscribed chat kw a.
Proof.
  cbn [unsubscribe snd]. split.
  - intros H a Ha Hs.
    assert (Hin : a ∈ filter (subscribed chat kw) (alerts d))
      by by apply list_elem_of_filter.
    destruct (filter (subscribed chat kw) (alerts d)); [by apply elem_of_nil in Hin |].
    cbn [length] in H. lia.
  - intros H. rewrite (proj2 (length_zero_iff_nil _)); [done |].
    induction (alerts d) as [|a l IH]; [done |].
    rewrite filter_cons_False by (apply H; left).
    apply IH. intros b Hb. apply H. by right.
Qed.

(** C6.  The delete removes every row of the pair and no other row,
    keeps the rest in order, and reports how many rows it removed; it
    reports 0 exactly when the pair has no row, the database is then as
    before and the handler answers that no alert was found, and otherwise
    that the alert was removed.  After two subscriptions to a pair the
    delete reports two rows more than before them, 2 on a new database, and
    a second delete reports 0. *)
Theorem unsubscribe_removes_all (d : database) (chat kw : str) (a : str) (args : list str) :
  (∀ r, r ∈ alerts (unsubscribe chat kw d).1 <-> r ∈ alerts d ∧ ¬ subscribed chat kw r) ∧
  alerts (unsubscribe chat kw d).1 `sublist_of` alerts d ∧
  interactions (unsubscribe chat kw d).1 = interactions d ∧
  N.of_nat (length (alerts d)) =
    N.of_nat (length (alerts (unsubscribe chat kw d).1)) + (unsubscribe chat kw d).2 ∧
  ((unsubscribe chat kw d).2 = 0 <-> ∀ r, r ∈ alerts d -> ¬ subscribed chat kw r) ∧
  ((unsubscribe chat kw d).2 = 0 -> (unsubscribe chat kw d).1 = d) ∧
  (unsubscribe chat kw (unsubscribe chat kw d).1).2 = 0 ∧
  (unsubscribe chat kw (subscribe chat kw (subscribe chat kw d))).2 =
    (unsubscribe chat kw d).2 + 2 ∧
  (unsubscribe chat kw (subscribe chat kw (subscribe chat kw empty_db))).2 = 2 ∧
  (let k := py_lower (Py.strip py_isspace (Py.join (lit " ") (a :: args))) in
   run (removealert_command chat (a :: args)) d =
   (Returned tt,
    {| store := (unsubscribe chat k d).1;
       outbox := [{| to := chat;
                     text := if decide ((unsubscribe chat k d).2 = 0)
                             then not_found_msg k else removed_msg k;
                     mode := None |}] |})).
Proof.
  split; [| split; [| split; [| split; [| split; [| split; [| split; [| split; [| split]]]]]]]].
  - intros r. cbn [unsubscribe fst alerts]. rewrite list_elem_of_filter. tauto.
  - apply sublist_filter.
  - reflexivity.
  - cbn [unsubscribe fst snd alerts].
    rewrite <- (Permutation_length (filter_app_complement (subscribed chat kw) (alerts d))).
    rewrite length_app. lia.
  - apply unsubscribe_none.
  - intros H. destruct d as [rows rseq al aseq]. cbn [unsubscribe fst].
    cbn [interactions interactions_seq alerts alerts_seq]. f_equal.
    rewrite unsubscribe_none in H. cbn [alerts] in H.
    induction al as [|r l IH]; [done |].
    rewrite filter_cons_True by (apply H; left). f_equal.
    apply IH. intros b Hb. apply H. by right.
  - apply unsubscribe_again.
  - rewrite !unsubscribe_count_subscribe. lia.
  - by rewrite !unsubscribe_count_subscribe.
  - cbn zeta. unfold run, removealert_command, mbind, Bot_bind, execute.
    cbn [store outbox unsubscribe fst snd send_message app].
    destruct (decide (N.of_nat _ = 0)) as [-> | Hne]; [done |].
    destruct (N.ltb_spec 0 (N.of_nat (length (filter
      (subscribed chat (py_lower (Py.strip py_isspace (Py.join (lit " ") (a :: args)))))
      (alerts d))))); [done | lia].
Qed.

End Unsubscribe.

(** ** The theorems at concrete inputs *)

Lemma one_notification_per_chat_witness :
  keyword_found (U := ascii_tables) (lit "ai") (lit "New AI chip announced") = true ∧
  keyword_found (U := ascii_tables) (lit "chip") (lit "New AI chip announced") = true ∧
  outbox (run (notify_alerts (U := ascii_tables) (lit "New AI chip announced"))
            (subscribe (lit "1") (lit "chip") (subscribe (lit "1") (lit "ai") empty_db))).2 =
    [alert_for (lit "1") (lit "ai")].
Proof.
  split; [reflexivity | split; [reflexivity |]].
  apply (one_notification_per_chat (U := ascii_tables) (lit "New AI chip announced")
           empty_db (lit "1")); reflexivity.
Defined.

Lemma duplicate_subscription_same_alerts_witness :
  (lit "1", lit "ai") ∈ all_subscriptions (subscribe (lit "1") (lit "ai") empty_db) ∧
  run (notify_alerts (U := ascii_tables) (lit "New AI chip announced"))
    (subscribe (lit "1") (lit "ai") (subscribe (lit "1") (lit "ai") empty_db)) =
  (Returned tt,
   {| store := subscribe (lit "1") (lit "ai") (subscribe (lit "1") (lit "ai") empty_db);
      outbox :=
        outbox (run (notify_alerts (U := ascii_tables) (lit "New AI chip announced"))
                  (subscribe (lit "1") (lit "ai") empty_db)).2 |}).
Proof.
  assert (H : (lit "1", lit "ai") ∈
              all_subscriptions (subscribe (lit "1") (lit "ai") empty_db)).
  { vm_compute. apply list_elem_of_here. }
  split; [exact H |].
  destruct (duplicate_subscription_same_alerts (U := ascii_tables)
              (lit "New AI chip announced") (subscribe (lit "1") (lit "ai") empty_db)
              (lit "1") (lit "ai") []) as (_ & Hdup & _).
  exact (Hdup H).
Defined.

Lemma topic_frequency_counts_witness :
  ∃ dropped,
    (∀ t c, (t, c) ∈ topic_frequency Example.three_requests (lit "42") 1 ++ dropped <->
            (∃ r, r ∈ interactions Example.three_requests ∧ i_chat_id r = lit "42" ∧
                  input_topic r = t) ∧
            c = N.of_nat (length (filter (λ r, i_chat_id r = lit "42" ∧ input_topic r = t)
                                    (interactions Example.three_requests)))) ∧
    NoDup (topic_frequency Example.three_requests (lit "42") 1 ++ dropped).*1 ∧
    StronglySorted (λ a b : str * N, b.2 <= a.2)
      (topic_frequency Example.three_requests (lit "42") 1 ++ dropped) ∧
    N.of_nat (length (topic_frequency Example.three_requests (lit "42") 1)) =
      N.min 1 (N.of_nat (length (distinct_topics Example.three_requests (lit "42")))).
Proof.
  apply (topic_frequency_counts Example.three_requests (lit "42") 1).
Defined.

Lemma unsubscribe_removes_all_witness :
  (unsubscribe (lit "1") (lit "ai") empty_db).2 = 0 ∧
  (unsubscribe (lit "1") (lit "ai") empty_db).1 = empty_db.
Proof.
  split; [reflexivity |].
  apply (unsubscribe_removes_all (U := ascii_tables) empty_db (lit "1") (lit "ai")
           (lit "ai") []).
  reflexivity.
Defined.

Lemma discover_set_difference_witness :
  (∀ t, t ∈ (global_topic_frequency Example.one_request 10).*1 ->
        t ∈ distinct_topics Example.one_request (lit "1")) ∧
  unexplored Example.one_request (lit "1") = ∅ ∧
  text <$> outbox (run (discover_command (lit "1")) Example.one_request).2 =
    [explored_all_msg].
Proof.
  assert (H : ∀ t, t ∈ (global_topic_frequency Example.one_request 10).*1 ->
                   t ∈ distinct_topics Example.one_request (lit "1")).
  { intros t Ht. vm_compute in Ht. vm_compute. exact Ht. }
  split; [exact H |].
  apply (discover_set_difference Example.one_request (lit "1")). exact H.
Defined.

(** * The rest of the request pipeline *)

(** ** Texts and their prefixes *)

Lemma startswith_app (s rest prefix : str) :
  Py.startswith s prefix = true -> Py.startswith (s ++ rest) prefix = true.
Proof.
  revert s. induction prefix as [|p prefix IH]; intros [|c s];
    cbn [Py.startswith app]; try done.
  - by destruct rest.
  - rewrite !andb_true_iff. intros [? ?]. auto.
Qed.

Lemma startswith_any_app (s rest : str) (prefixes : list str) :
  Py.startswith_any s prefixes = true -> Py.startswith_any (s ++ rest) prefixes = true.
Proof.
  unfold Py.startswith_any. rewrite !existsb_exists.
  intros (p & Hp & Hs). exists p. auto using startswith_app.
Qed.

Lemma join_cons_app (sep x : str) (rest : list str) :
  ∃ tail, Py.join sep (x :: rest) = x ++ tail.
Proof.
  destruct rest as [|y rest]; cbn [Py.join].
  - exists []. by rewrite app_nil_r.
  - by eexists.
Qed.

(** ** [get_news] *)

(** The branch returns a text with one of the two prefixes. *)
Ltac sentinel :=
  left; eexists; split;
  [reflexivity | first [reflexivity | by apply startswith_any_app]].

(** X1.  Whatever the key, the reply and the topic, [get_news] either
    returns a text that begins with [Error:] or [No news], or the key is
    set and the reply has status 200 and a list of articles that is not
    empty; in that case it returns the headlines joined by newlines when
    every article has a title and raises [KeyError] otherwise. *)
Theorem get_news_failure_is_sentinel (key : option str) (http_get : str -> Gnews.reply)
    (topic : str) :
  (∃ s, Gnews.get_news key http_get topic = Gnews.Text s ∧
        Py.startswith_any s [lit "Error:"; lit "No news"] = true) ∨
  (∃ k l,
     key = Some k ∧ k ≠ [] ∧ l ≠ [] ∧
     http_get (if bool_decide (topic ∈ Gnews.CATEGORIES) then Gnews.headlines_url topic k
               else Gnews.search_url topic k) = Gnews.Response 200 (Some l) ∧
     Gnews.get_news key http_get topic =
       match mapM Gnews.headline l with
       | Some titles => Gnews.Text (Py.join newline titles)
       | None => Gnews.KeyError
       end).
Proof.
  unfold Gnews.get_news, Gnews.no_news.
  destruct key as [[|c k] |]; [sentinel | | sentinel].
  destruct (http_get _) as [code articles | e] eqn:Hreply; [| sentinel].
  destruct (N.eqb_spec code 403); [sentinel |].
  destruct (N.eqb_spec code 429); [sentinel |].
  destruct (N.eqb_spec code 200) as [-> |]; cbn [negb]; [| sentinel].
  destruct articles as [[|a l] |]; [sentinel | | sentinel].
  right. exists (c :: k), (a :: l). by repeat split.
Qed.

(** X2.  A reply with status 200 whose first headline begins with
    [Error:] or [No news] gives a text that line 154 takes for a failed
    fetch: the request is answered with the headlines as they are, nothing
    is summarised and no row is stored. *)
Theorem headline_taken_for_failure {U : Unicode} (W : World) (chat : str)
    (args : list str) (d : database) (key : str) (http_get : str -> Gnews.reply)
    (a : Gnews.article) (l : list Gnews.article) (first : str) (titles : list str) :
  key ≠ [] ->
  http_get (if bool_decide (requested_topic args ∈ Gnews.CATEGORIES)
            then Gnews.headlines_url (requested_topic args) key
            else Gnews.search_url (requested_topic args) key) =
    Gnews.Response 200 (Some (a :: l)) ->
  mapM Gnews.headline (a :: l) = Some (first :: titles) ->
  Py.startswith_any first [lit "Error:"; lit "No news"] = true ->
  Gnews.get_news (Some key) http_get (requested_topic args) =
    Gnews.Text (get_news W (requested_topic args)) ->
  get_news W (requested_topic args) = Py.join newline (first :: titles) ∧
  run (news_command W chat args) d =
  (Returned tt,
   {| store := d;
      outbox :=
        searching_msg chat (requested_topic args) ::
        alerts_for (get_news W (requested_topic args)) (all_subscriptions d) ∅ ++
        [{| to := chat; text := Py.join newline (first :: titles); mode := None |}] |}).
Proof.
  intros Hkey Hreply Htitles Hfirst Hfetch.
  unfold Gnews.get_news in Hfetch. destruct key as [|c k]; [done |].
  rewrite Hreply in Hfetch. cbn [N.eqb Pos.eqb negb] in Hfetch.
  rewrite Htitles in Hfetch.
  assert (Hjoin : Py.join newline (first :: titles) = get_news W (requested_topic args))
    by congruence.
  clear Hfetch. split; [done |].
  rewrite news_command_fetch_failed; [by rewrite Hjoin |].
  rewrite <- Hjoin. destruct (join_cons_app newline first titles) as [tail ->].
  by apply startswith_any_app.
Qed.

(** ** [summarize_with_ai] and the digest *)

Section Summaries.
Context {U : Unicode}.

(** A request whose fetch succeeds and whose summary carries one of the
    two prefixes of line 158. *)
Lemma news_command_summary_failed (W : World) (chat : str) (args : list str) (d : database) :
  let topic := requested_topic args in
  let news := get_news W topic in
  Py.startswith_any news [lit "Error:"; lit "No news"] = false ->
  Py.startswith_any (summarize_with_ai W news) summary_guard = true ->
  run (news_command W chat args) d =
  (Returned tt,
   {| store := d;
      outbox := searching_msg chat topic :: alerts_for news (all_subscriptions d) ∅ ++
                [{| to := chat; text := summarize_with_ai W news; mode := None |}] |}).
Proof.
  cbn zeta. intros Hnews Hsum. unfold run, news_command, mbind, Bot_bind.
  cbn [send_message store outbox app]. rewrite notify_alerts_state, Hnews.
  unfold summary_guard in Hsum. rewrite Hsum. reflexivity.
Qed.

(** A request whose fetch and summary both pass the guards. *)
Lemma news_command_success (W : World) (chat : str) (args : list str) (d : database) :
  let topic := requested_topic args in
  let news := get_news W topic in
  Py.startswith_any news [lit "Error:"; lit "No news"] = false ->
  Py.startswith_any (summarize_with_ai W news) summary_guard = false ->
  run (news_command W chat args) d =
  (Returned tt,
   {| store := append (now W) chat topic news (summarize_with_ai W news) d;
      outbox := searching_msg chat topic :: alerts_for news (all_subscriptions d) ∅ ++
                digest_messages W chat topic (summarize_with_ai W news) |}).
Proof.
  cbn zeta. intros Hnews Hsum. unfold run, news_command, mbind, Bot_bind.
  cbn [send_message store outbox app]. rewrite notify_alerts_state, Hnews.
  unfold summary_guard in Hsum. rewrite Hsum.
  unfold digest_messages, final_digest, display_topic, log_interaction, execute.
  cbn [send_message store outbox].
  destruct (negb _ && _); unfold send_message, mret, Bot_ret;
    cbn [store outbox app]; by rewrite <- ?app_assoc.
Qed.

(** X3.  Without a Gemini key the summary is the text of line 128, which
    line 158 recognises: after a fetch that succeeded the request is
    answered with that text and no row is stored. *)
Theorem missing_gemini_key_reported (W : World) (chat : str) (args : list str)
    (d : database) (key : option str) (generate_content : list str -> Gemini.generation) :
  key = None ∨ key = Some [] ->
  Py.startswith_any (get_news W (requested_topic args)) [lit "Error:"; lit "No news"] = false ->
  summarize_with_ai W (get_news W (requested_topic args)) =
    Gemini.summarize_with_ai key generate_content (get_news W (requested_topic args)) ->
  run (news_command W chat args) d =
  (Returned tt,
   {| store := d;
      outbox :=
        searching_msg chat (requested_topic args) ::
        alerts_for (get_news W (requested_topic args)) (all_subscriptions d) ∅ ++
        [{| to := chat; text := Gemini.key_missing; mode := None |}] |}).
Proof.
  intros Hkey Hnews Hsum.
  assert (Hmissing : summarize_with_ai W (get_news W (requested_topic args)) =
                     Gemini.key_missing).
  { rewrite Hsum. by destruct Hkey as [-> | ->]. }
  rewrite news_command_summary_failed; [by rewrite Hmissing | done |].
  by rewrite Hmissing.
Qed.

(** X4.  When the call of the model raises, the summary is the text of
    line 140, which carries neither prefix of line 158: the request goes on
    as for a digest and stores a row whose summary is that text. *)
Theorem summarization_error_is_stored (W : World) (chat : str) (args : list str)
    (d : database) (k : char) (key : str)
    (generate_content : list str -> Gemini.generation) (e : str) :
  Py.startswith_any (get_news W (requested_topic args)) [lit "Error:"; lit "No news"] = false ->
  generate_content
    [Gemini.system_prompt;
     lit "News Data:" ++ newline ++ get_news W (requested_topic args)] =
    Gemini.Exception e ->
  summarize_with_ai W (get_news W (requested_topic args)) =
    Gemini.summarize_with_ai (Some (k :: key)) generate_content
      (get_news W (requested_topic args)) ->
  run (news_command W chat args) d =
  (Returned tt,
   {| store :=
        append (now W) chat (requested_topic args) (get_news W (requested_topic args))
          (lit "An unexpected error occurred during summarization: " ++ e) d;
      outbox :=
        searching_msg chat (requested_topic args) ::
        alerts_for (get_news W (requested_topic args)) (all_subscriptions d) ∅ ++
        digest_messages W chat (requested_topic args)
          (lit "An unexpected error occurred during summarization: " ++ e) |}).
Proof.
  intros Hnews Hgen Hsum.
  assert (Herr : summarize_with_ai W (get_news W (requested_topic args)) =
                 lit "An unexpected error occurred during summarization: " ++ e).
  { rewrite Hsum. cbn [Gemini.summarize_with_ai]. by rewrite Hgen. }
  rewrite news_command_success; [by rewrite Herr | done |].
  by rewrite Herr.
Qed.

Lemma final_digest_length (W : World) (topic digest : str) :
  (length (final_digest W topic digest) <= 4000)%nat.
Proof.
  unfold final_digest. cbn zeta.
  match goal with |- context [(4000 <? length ?full)%nat] =>
    destruct (Nat.ltb_spec 4000 (length full)) as [Hlong | Hshort] end.
  - rewrite length_app, length_take. change (length (lit "...")) with 3%nat. lia.
  - done.
Qed.

(** X5.  No message that a request sends as MarkdownV2, the reply with the
    digest or its copy to the channel, is longer than 4000 characters. *)
Theorem digest_at_most_4000 (W : World) (chat : str) (args : list str) (d : database)
    (m : message) :
  m ∈ outbox (run (news_command W chat args) d).2 ->
  mode m = Some MarkdownV2 ->
  (length (text m) <= 4000)%nat.
Proof.
  intros Hm Hmode.
  assert (Halert : ∀ news rows already, m ∉ alerts_for news rows already).
  { intros news rows. induction rows as [|[c kw] rows IH]; intros already;
      cbn [alerts_for]; [apply not_elem_of_nil |].
    destruct (_ && _); [| done]. rewrite not_elem_of_cons. split; [| done].
    intros ->. discriminate Hmode. }
  destruct (Py.startswith_any (get_news W (requested_topic args))
              [lit "Error:"; lit "No news"]) eqn:Hnews.
  { rewrite news_command_fetch_failed in Hm by done. cbn [snd outbox] in Hm.
    rewrite elem_of_cons, elem_of_app, list_elem_of_singleton in Hm.
    destruct Hm as [-> | [Hm | ->]]; [done | by apply Halert in Hm | done]. }
  destruct (Py.startswith_any (summarize_with_ai W (get_news W (requested_topic args)))
              summary_guard) eqn:Hsum.
  { rewrite news_command_summary_failed in Hm by done. cbn [snd outbox] in Hm.
    rewrite elem_of_cons, elem_of_app, list_elem_of_singleton in Hm.
    destruct Hm as [-> | [Hm | ->]]; [done | by apply Halert in Hm | done]. }
  rewrite news_command_success in Hm by done. cbn [snd outbox] in Hm.
  rewrite elem_of_cons, elem_of_app in Hm.
  destruct Hm as [-> | [Hm | Hm]]; [done | by apply Halert in Hm |].
  unfold digest_messages in Hm. rewrite elem_of_cons in Hm.
  destruct Hm as [-> | Hm]; [apply final_digest_length |].
  destruct (negb _ && _); [| by apply elem_of_nil in Hm].
  apply list_elem_of_singleton in Hm as ->. apply final_digest_length.
Qed.

End Summaries.

(** ** What a command does to the database *)

Section Commands.
Context {U : Unicode}.

(** Unfold a handler down to the state it returns. *)
Ltac run_handler :=
  unfold run, mbind, Bot_bind, query, execute, send_message, raise, mret, Bot_ret;
  cbn [store outbox fst snd];
  repeat match goal with
         | |- context [match ?x with _ => _ end] => destruct x eqn:?
         end;
  cbn [store outbox fst snd].

Lemma history_command_store (chat : str) (args : list str) (d : database) :
  store (run (history_command chat args) d).2 = d.
Proof. unfold history_command. by run_handler. Qed.

Lemma mytopics_command_store (chat : str) (d : database) :
  store (run (mytopics_command chat) d).2 = d.
Proof. unfold mytopics_command. by run_handler. Qed.

Lemma alerts_command_store (chat : str) (d : database) :
  store (run (alerts_command chat) d).2 = d.
Proof. unfold alerts_command. by run_handler. Qed.

Lemma trending_command_store (chat : str) (d : database) :
  store (run (trending_command chat) d).2 = d.
Proof. unfold trending_command. by run_handler. Qed.

Lemma alert_command_store (chat : str) (args : list str) (d : database) :
  store (run (alert_command chat args) d).2 =
  match args with
  | [] => d
  | _ :: _ => subscribe chat (py_lower (Py.strip py_isspace (Py.join (lit " ") args))) d
  end.
Proof. by destruct args. Qed.

Lemma removealert_command_store (chat : str) (args : list str) (d : database) :
  store (run (removealert_command chat args) d).2 =
  match args with
  | [] => d
  | _ :: _ =>
      (unsubscribe chat (py_lower (Py.strip py_isspace (Py.join (lit " ") args))) d).1
  end.
Proof.
  destruct args as [|a args]; [done |].
  unfold run, removealert_command, mbind, Bot_bind, execute.
  cbn [store outbox unsubscribe fst snd]. by destruct (0 <? _).
Qed.

(** The database a command leaves is the one it found, or that one after
    the insert of the request, the insert of a subscription or the delete
    of one. *)
Lemma dispatch_store (W : World) (command : string) (chat : str) (args : list str)
    (d : database) :
  let d' := store (run (dispatch W command chat args) d).2 in
  d' = d ∨
  (command = "news"%string ∧ ∃ topic news digest, d' = append (now W) chat topic news digest d) ∨
  (command = "alert"%string ∧ ∃ kw, d' = subscribe chat kw d) ∨
  (command = "removealert"%string ∧ ∃ kw, d' = (unsubscribe chat kw d).1).
Proof.
  cbn zeta. unfold dispatch.
  destruct (String.eqb_spec command "news") as [-> |].
  { destruct (news_command_store W chat args d) as [-> | ->]; [by left |].
    right; left. split; [done |]. by do 3 eexists. }
  destruct (String.eqb_spec command "history"); [left; apply history_command_store |].
  destruct (String.eqb_spec command "mytopics"); [left; apply mytopics_command_store |].
  destruct (String.eqb_spec command "alert") as [-> |].
  { rewrite alert_command_store. destruct args; [by left |].
    right; right; left. split; [done |]. by eexists. }
  destruct (String.eqb_spec command "alerts"); [left; apply alerts_command_store |].
  destruct (String.eqb_spec command "removealert") as [-> |].
  { rewrite removealert_command_store. destruct args; [by left |].
    right; right; right. split; [done |]. by eexists. }
  destruct (String.eqb_spec command "trending"); [left; apply trending_command_store |].
  destruct (String.eqb_spec command "discover"); by left.
Qed.

(** X6.  No command changes or removes a row of [interactions]: the table
    after a command is the table before it, followed by at most one row,
    and by none unless the command is [/news].  Only [/alert] and
    [/removealert] change [alerts]. *)
Theorem commands_keep_stored_interactions (W : World) (command : string) (chat : str)
    (args : list str) (d : database) :
  let d' := store (run (dispatch W command chat args) d).2 in
  (∃ added, interactions d' = interactions d ++ added ∧ (length added <= 1)%nat) ∧
  (command ≠ "news"%string -> interactions d' = interactions d) ∧
  (command ≠ "alert"%string -> command ≠ "removealert"%string -> alerts d' = alerts d).
Proof.
  cbn zeta.
  destruct (dispatch_store W command chat args d)
    as [-> | [[-> (t & n & s & ->)] | [[-> [kw ->]] | [-> [kw ->]]]]].
  all: split; [| done].
  2: by eexists; split; [reflexivity | cbn; lia].
  all: exists []; rewrite app_nil_r; split; [done | cbn; lia].
Qed.

Lemma handle_reachable (d : database) (u : update) : reachable d -> reachable (handle d u).
Proof.
  intros Hd. unfold handle.
  destruct (dispatch_store (u_world u) (u_command u) (u_chat u) (u_args u) d)
    as [-> | [[_ (t & n & s & ->)] | [[_ [kw ->]] | [_ [kw ->]]]]];
    [done | by constructor ..].
Qed.

Lemma serve_reachable (us : list update) (d : database) :
  reachable d -> reachable (serve us d).
Proof.
  revert d. induction us as [|u us IH]; intros d Hd; [done |].
  apply IH, handle_reachable, Hd.
Qed.

Lemma alert_ids_ascending_reachable (d : database) : reachable d -> alert_ids_ascending d.
Proof.
  unfold alert_ids_ascending.
  induction 1 as [| | chat kw d _ [IHs IHb] | chat kw d _ [IHs IHb]];
    cbn [alerts alerts_seq append subscribe unsubscribe fst empty_db]; try done.
  - split; constructor.
  - rewrite Forall_forall in IHb. split.
    + apply StronglySorted_app_2; [| done | repeat constructor].
      intros x y Hx ->%list_elem_of_singleton. cbn [a_id].
      specialize (IHb x Hx). lia.
    + apply Forall_app. split.
      * apply Forall_forall. intros x Hx. specialize (IHb x Hx). lia.
      * repeat constructor. cbn [a_id]. lia.
  - split; [by apply StronglySorted_filter |].
    rewrite Forall_forall in *. intros a [_ Ha]%list_elem_of_filter. by apply IHb.
Qed.

Lemma ascending_NoDup {A} (f : A -> N) (l : list A) :
  StronglySorted (λ a b, f a < f b) l -> NoDup (f <$> l).
Proof.
  induction 1 as [|x l Hl IH Hx]; cbn [fmap list_fmap]; constructor; [| done].
  rewrite list_elem_of_fmap. intros (y & Heq & Hy).
  rewrite Forall_forall in Hx. specialize (Hx y Hy). lia.
Qed.

(** One update: the counters do not go down, and a row that the update
    leaves in a table was there before or has an id above the counter. *)
Lemma handle_fresh_ids (d : database) (u : update) :
  interactions_seq d <= interactions_seq (handle d u) ∧
  alerts_seq d <= alerts_seq (handle d u) ∧
  (∀ r, r ∈ interactions (handle d u) ->
        r ∈ interactions d ∨ interactions_seq d < i_id r) ∧
  (∀ a, a ∈ alerts (handle d u) -> a ∈ alerts d ∨ alerts_seq d < a_id a).
Proof.
  unfold handle.
  destruct (dispatch_store (u_world u) (u_command u) (u_chat u) (u_args u) d)
    as [-> | [[_ (t & n & s & ->)] | [[_ [kw ->]] | [_ [kw ->]]]]];
    cbn [append subscribe unsubscribe fst interactions interactions_seq alerts alerts_seq].
  - repeat split; [lia | lia | auto | auto].
  - repeat split; [lia | lia | | auto].
    intros r [Hr | ->%list_elem_of_singleton]%elem_of_app; [by left | right].
    cbn [i_id]. lia.
  - repeat split; [lia | lia | auto |].
    intros a [Ha | ->%list_elem_of_singleton]%elem_of_app; [by left | right].
    cbn [a_id]. lia.
  - repeat split; [lia | lia | auto |].
    intros a [_ Ha]%list_elem_of_filter. by left.
Qed.

Lemma serve_fresh_ids (us : list update) : ∀ d : database,
  interactions_seq d <= interactions_seq (serve us d) ∧
  alerts_seq d <= alerts_seq (serve us d) ∧
  (∀ r, r ∈ interactions (serve us d) ->
        r ∈ interactions d ∨ interactions_seq d < i_id r) ∧
  (∀ a, a ∈ alerts (serve us d) -> a ∈ alerts d ∨ alerts_seq d < a_id a).
Proof.
  induction us as [|u us IH]; intros d.
  - change (serve [] d) with d. repeat split; [lia | lia | auto | auto].
  - change (serve (u :: us) d) with (serve us (handle d u)).
    destruct (IH (handle d u)) as (Hi & Ha & Hrows & Halerts).
    destruct (handle_fresh_ids d u) as (Hi1 & Ha1 & Hrows1 & Halerts1).
    repeat split; [lia | lia | |].
    + intros r [Hr | Hr]%Hrows; [| right; lia].
      destruct (Hrows1 r Hr); [by left | right; lia].
    + intros a [Hin | Hin]%Halerts; [| right; lia].
      destruct (Halerts1 a Hin); [by left | right; lia].
Qed.

(** X7.  An id is given once.  Take the database [d0] after any updates
    since the tables were created, [d1] after further updates and [d2]
    after yet further ones.  In [d0] the rows of each table stand in
    ascending id order, no two share an id and none has an id above the
    counter of its table.  From [d0] to [d1] the counters do not go down,
    and a row of [d1] is a row of [d0] or has an id above the counter of
    [d0], so above every id of [d0].  Hence the id of a subscription of
    [d0] that is gone in [d1] belongs to no subscription of [d2].  Chat 1
    subscribing to [ai], removing the subscription and subscribing again
    holds the id 2. *)
Theorem ids_never_reused (us0 us1 us2 : list update) :
  let d0 := serve us0 empty_db in
  let d1 := serve us1 d0 in
  let d2 := serve us2 d1 in
  (StronglySorted (λ a b, i_id a < i_id b) (interactions d0) ∧
   StronglySorted (λ a b, a_id a < a_id b) (alerts d0) ∧
   NoDup (i_id <$> interactions d0) ∧
   NoDup (a_id <$> alerts d0) ∧
   Forall (λ r, i_id r <= interactions_seq d0) (interactions d0) ∧
   Forall (λ a, a_id a <= alerts_seq d0) (alerts d0)) ∧
  (interactions_seq d0 <= interactions_seq d1 ∧ alerts_seq d0 <= alerts_seq d1) ∧
  (∀ r, r ∈ interactions d1 ->
        r ∈ interactions d0 ∨
        interactions_seq d0 < i_id r ∧ Forall (λ r0, i_id r0 < i_id r) (interactions d0)) ∧
  (∀ a, a ∈ alerts d1 ->
        a ∈ alerts d0 ∨
        alerts_seq d0 < a_id a ∧ Forall (λ a0, a_id a0 < a_id a) (alerts d0)) ∧
  (∀ a, a ∈ alerts d0 -> a ∉ alerts d1 -> a_id a ∉ a_id <$> alerts d2) ∧
  alerts (serve (U := ascii_tables) Scenario.resubscribed empty_db) =
    [{| a_id := 2; a_chat_id := lit "1"; keyword := lit "ai" |}].
Proof.
  cbn zeta.
  set (d0 := serve us0 empty_db). set (d1 := serve us1 d0). set (d2 := serve us2 d1).
  assert (Hd0 : reachable d0) by apply serve_reachable, reachable_empty.
  assert (Hd1 : reachable d1) by apply serve_reachable, Hd0.
  destruct (rowids_ascending_reachable _ Hd0) as [Hi Hib].
  destruct (alert_ids_ascending_reachable _ Hd0) as [Ha Hab].
  destruct (alert_ids_ascending_reachable _ Hd1) as [Ha1 Hab1].
  destruct (serve_fresh_ids us1 d0) as (Hseq_i & Hseq_a & Hrows & Halerts).
  destruct (serve_fresh_ids us2 d1) as (_ & _ & _ & Halerts2).
  fold d1 in Hseq_i, Hseq_a, Hrows, Halerts. fold d2 in Halerts2.
  assert (Hgone : ∀ a, a ∈ alerts d0 -> a ∉ alerts d1 -> a_id a ∉ a_id <$> alerts d1).
  { intros a Hin Hout (a' & Hid & Hin')%list_elem_of_fmap.
    destruct (Halerts a' Hin') as [Hold | Hnew].
    - apply ascending_NoDup in Ha.
      assert (a = a'); [| by subst].
      apply list_elem_of_lookup in Hin as [i Hi'].
      apply list_elem_of_lookup in Hold as [j Hj].
      assert (i = j); [| congruence].
      apply (NoDup_lookup _ _ _ (a_id a) Ha); rewrite list_lookup_fmap.
      + by rewrite Hi'.
      + rewrite Hj. cbn. by rewrite Hid.
    - rewrite Forall_forall in Hab. specialize (Hab a Hin). lia. }
  split; [repeat split; try done; by apply ascending_NoDup |].
  split; [done |].
  split; [| split; [| split; [| by vm_compute]]].
  - intros r [Hr | Hr]%Hrows; [by left | right]. split; [done |].
    eapply Forall_impl; [exact Hib |]. cbn. intros; lia.
  - intros a [Hin | Hin]%Halerts; [by left | right]. split; [done |].
    eapply Forall_impl; [exact Hab |]. cbn. intros; lia.
  - intros a Hin Hout (a' & Hid & Hin')%list_elem_of_fmap.
    destruct (Halerts2 a' Hin') as [Hold | Hnew].
    + apply (Hgone a Hin Hout). apply list_elem_of_fmap. by exists a'.
    + rewrite Forall_forall in Hab. specialize (Hab a Hin). lia.
Qed.

End Commands.

(** ** The argument of [/history] *)

Module Decimal_facts.
Import Decimal.

Lemma decimal_char (x : N) :
  x < 10 ->
  Ascii_range.decimal (N_of_ascii (pretty_N_char x)) = Some x ∧
  Ascii_range.is_digit (N_of_ascii (pretty_N_char x)) = true.
Proof.
  intros Hx.
  assert (x = 0 ∨ x = 1 ∨ x = 2 ∨ x = 3 ∨ x = 4 ∨ x = 5 ∨ x = 6 ∨ x = 7 ∨ x = 8 ∨ x = 9)
    as Hcases by lia.
  repeat destruct Hcases as [-> | Hcases]; try subst x; by vm_compute.
Qed.

Lemma value_go (x : N) : ∀ s : string,
  foldl step (Some 0) (lit (pretty_N_go x s)) = foldl step (Some x) (lit s).
Proof.
  induction (N.lt_wf_0 x) as [x _ IH]. intros s.
  destruct (decide (x = 0)) as [-> | Hx]; [done |].
  rewrite pretty_N_go_step by lia. rewrite IH by (apply N.div_lt; lia).
  change (lit (String ?c s)) with (N_of_ascii c :: lit s). cbn [foldl]. f_equal.
  unfold step. cbn [mbind option_bind py_decimal ascii_tables].
  destruct (decimal_char (x `mod` 10)) as [-> _]; [by apply N.mod_lt |].
  cbn [mbind option_bind]. f_equal. symmetry. by apply N.div_mod.
Qed.

Lemma digits_go (x : N) : ∀ s : string,
  forallb Ascii_range.is_digit (lit (pretty_N_go x s)) =
  forallb Ascii_range.is_digit (lit s).
Proof.
  induction (N.lt_wf_0 x) as [x _ IH]. intros s.
  destruct (decide (x = 0)) as [-> | Hx]; [done |].
  rewrite pretty_N_go_step by lia. rewrite IH by (apply N.div_lt; lia).
  change (lit (String ?c s)) with (N_of_ascii c :: lit s). cbn [forallb].
  destruct (decimal_char (x `mod` 10)) as [_ ->]; [by apply N.mod_lt | done].
Qed.

(** A number below [10 ^ k] is written with at most [k] digits. *)
Lemma length_go (k : nat) : ∀ (x : N) (s : string),
  x < 10 ^ N.of_nat k ->
  (length (lit (pretty_N_go x s)) <= k + length (lit s))%nat.
Proof.
  induction k as [|k IH]; intros x s Hx.
  - change (10 ^ N.of_nat 0) with 1 in Hx. assert (x = 0) as -> by lia. done.
  - destruct (decide (x = 0)) as [-> | Hx0]; [rewrite pretty_N_go_0; lia |].
    rewrite pretty_N_go_step by lia.
    etrans; [apply IH |].
    + rewrite Nat2N.inj_succ, N.pow_succ_r' in Hx.
      apply N.Div0.div_lt_upper_bound. lia.
    + change (lit (String ?c s)) with (N_of_ascii c :: lit s). cbn [length]. lia.
Qed.

(** [str(n)] is a text of digits, and [int] reads [n] back from it when
    [n] has no more digits than [int] accepts. *)
Lemma int_str (n : N) :
  isdigit (U := ascii_tables) (Py.str_of_N n) = true ∧
  (n < 10 ^ N.of_nat int_max_str_digits ->
   int (U := ascii_tables) (Py.str_of_N n) = Some n).
Proof.
  unfold Py.str_of_N, pretty, pretty_N.
  destruct (decide (n = 0)) as [-> | Hn]; [done |].
  assert (Hv := value_go n ""). assert (Hd := digits_go n "").
  assert (Hl := length_go int_max_str_digits n "").
  unfold isdigit, int. fold step.
  destruct (lit (pretty_N_go n "")) as [|c s] eqn:E.
  - cbn in Hv. congruence.
  - split; [done |]. intros Hlt. specialize (Hl Hlt).
    change (length (lit "")) with 0%nat in Hl. rewrite Nat.add_0_r in Hl.
    by destruct (Nat.ltb_spec int_max_str_digits (length (c :: s))) as [? | _]; [lia |].
Qed.

End Decimal_facts.

Section History.
Context {U : Unicode}.

Lemma recent_nil (d : database) (chat : str) (n : N) :
  recent d chat n = [] <-> n = 0 ∨ rows_of_chat chat d = [].
Proof.
  unfold recent, Sql.limit.
  set (sorted := Sql.order_by _ _).
  assert (Hlen : length sorted = length (rows_of_chat chat d))
    by apply Permutation_length, Order_facts.order_by_perm.
  split.
  - intros Htake. apply (f_equal length) in Htake. rewrite length_take in Htake.
    cbn [length] in Htake.
    destruct (rows_of_chat chat d); [by right | left]. cbn [length] in Hlen. lia.
  - intros [-> | Hrows]; [done |]. rewrite Hrows in Hlen.
    destruct sorted; [by destruct (N.to_nat n) | done].
Qed.

(** X8.  With a limit that SQLite can bind, [/history] returns, leaves the
    database as it was and sends one message, to the requesting chat; that
    message says that there is no history exactly when the limit is 0 or
    the chat has no row. *)
Theorem history_reply (chat : str) (args : list str) (d : database) :
  history_limit args <= sqlite_max_int ->
  ∃ msg pm,
    run (history_command chat args) d =
      (Returned tt,
       {| store := d; outbox := [{| to := chat; text := msg; mode := pm |}] |}) ∧
    (msg = no_history_msg <-> history_limit args = 0 ∨ rows_of_chat chat d = []).
Proof.
  intros Hn. unfold run, history_command, mbind, Bot_bind, query.
  destruct (N.ltb_spec sqlite_max_int (history_limit args)) as [| _]; [lia |].
  cbn [store outbox]. setoid_rewrite <- recent_nil.
  destruct (recent d chat (history_limit args)) as [|r rows] eqn:E.
  - do 2 eexists. split; [reflexivity | done].
  - do 2 eexists. split; [reflexivity |]. split; [| done].
    cbn [imap Py.join]. intros [=].
Qed.

End History.

(** X9.  On the ASCII tables, [/history] followed by the decimal text of a
    number below 10^4300 (the most digits that [int] converts) asks for
    that number of rows, whatever follows it; when the number is above
    2^63 - 1 the handler raises [OverflowError] and sends nothing. *)
Theorem history_decimal_argument (n : N) (more : list str) (chat : str) (d : database) :
  n < 10 ^ 4300 ->
  history_limit (U := ascii_tables) (Py.str_of_N n :: more) = n ∧
  (sqlite_max_int < n ->
   run (history_command (U := ascii_tables) chat (Py.str_of_N n :: more)) d =
   (Raised OverflowError, {| store := d; outbox := [] |})).
Proof.
  intros Hdigits.
  assert (Hlimit : history_limit (U := ascii_tables) (Py.str_of_N n :: more) = n).
  { unfold history_limit. destruct (Decimal_facts.int_str n) as [-> Hint].
    by rewrite Hint. }
  split; [done |]. intros Hn. unfold run, history_command. rewrite Hlimit.
  by destruct (N.ltb_spec sqlite_max_int n) as [_ | ?]; [| lia].
Qed.

(** ** A stored request and the history *)

Lemma order_by_latest {A} (before : A -> A -> bool) (x : A) (l : list A) :
  (∀ y, y ∈ l -> before x y = true) ->
  Sql.order_by before (l ++ [x]) = x :: Sql.order_by before l.
Proof.
  unfold Sql.order_by. induction l as [|y l IH]; intros Hx; [done |].
  cbn [app foldr]. rewrite IH by (intros z Hz; apply Hx; by right).
  cbn [Sql.place]. rewrite Hx by left. done.
Qed.

(** X11.  A request stored at a time later than every row of its chat
    heads the history of the chat: the history with one row more is the
    new row followed by the former history.  The history of any other
    chat is as before. *)
Theorem stored_request_heads_history (d : database) (now chat topic news digest : str)
    (n : N) (other : str) :
  (∀ r, r ∈ rows_of_chat chat d -> Sql.text_lt (timestamp r) now = true) ->
  recent (append now chat topic news digest d) chat (N.succ n) =
    {| i_id := interactions_seq d + 1; i_chat_id := chat; input_topic := topic;
       news_data := news; summary := digest; timestamp := now |} :: recent d chat n ∧
  (other ≠ chat -> recent (append now chat topic news digest d) other n = recent d other n).
Proof.
  intros Hlater. unfold recent, rows_of_chat, append. cbn [interactions].
  rewrite !filter_app. split.
  - rewrite filter_cons_True by done. rewrite filter_nil.
    rewrite order_by_latest by (intros y Hy; by apply Hlater).
    unfold Sql.limit. by rewrite N2Nat.inj_succ.
  - intros Hother. rewrite filter_cons_False by (cbn; congruence).
    by rewrite filter_nil, app_nil_r.
Qed.

(** ** Subscriptions *)

Lemma filter_all {A} (P : A -> Prop) `{∀ x, Decision (P x)} (l : list A) :
  (∀ x, x ∈ l -> P x) -> filter P l = l.
Proof.
  induction l as [|x l IH]; intros HP; [done |].
  rewrite filter_cons_True by (apply HP; left). f_equal.
  apply IH. intros y Hy. apply HP. by right.
Qed.

Section Subscriptions.
Context {U : Unicode}.

(** X12.  After [/alert] with arguments, the keyword made of them is the
    last entry of what [/alerts] lists for the chat, after the entries
    listed before; the list of any other chat is as before. *)
Theorem alert_then_list (chat : str) (a : str) (args : list str) (d : database)
    (other : str) :
  let d' := store (run (alert_command chat (a :: args)) d).2 in
  list_for_chat d' chat = list_for_chat d chat ++ [keyword_of (a :: args)] ∧
  (other ≠ chat -> list_for_chat d' other = list_for_chat d other).
Proof.
  cbn zeta. rewrite alert_command_store. unfold list_for_chat, subscribe.
  cbn [alerts]. rewrite !filter_app. split.
  - rewrite filter_cons_True by done. by rewrite filter_nil, fmap_app.
  - intros Hother. rewrite filter_cons_False by (cbn; congruence).
    by rewrite filter_nil, app_nil_r.
Qed.

(** X13.  [/removealert] with the arguments of an earlier [/alert] finds
    the subscription: it answers that the alert was removed, and the rows
    left are those that were there before the [/alert], less the rows of
    the pair. *)
Theorem alert_then_removealert (chat : str) (a : str) (args : list str) (d : database) :
  let kw := keyword_of (a :: args) in
  let d1 := store (run (alert_command chat (a :: args)) d).2 in
  ∃ d2,
    run (removealert_command chat (a :: args)) d1 =
      (Returned tt,
       {| store := d2;
          outbox := [{| to := chat; text := removed_msg kw; mode := None |}] |}) ∧
    alerts d2 = filter (λ r, ¬ subscribed chat kw r) (alerts d) ∧
    ((∀ r, r ∈ alerts d -> ¬ subscribed chat kw r) -> alerts d2 = alerts d).
Proof.
  cbn zeta. rewrite alert_command_store.
  unfold run, removealert_command, mbind, Bot_bind, execute.
  cbn [store outbox unsubscribe subscribe alerts].
  fold (keyword_of (a :: args)). set (kw := keyword_of (a :: args)).
  rewrite !filter_app, length_app, !filter_cons_True by done.
  rewrite filter_cons_False by (intros H; by apply H).
  rewrite !filter_nil, app_nil_r. cbn [length].
  destruct (N.ltb_spec 0 (N.of_nat (length (filter (subscribed chat kw) (alerts d)) + 1)));
    [| lia].
  eexists. split; [reflexivity |]. cbn [alerts]. split; [done |].
  apply filter_all.
Qed.

Lemma elem_of_alerts_for (m : message) (news : str) (rows : list (str * str)) :
  ∀ already, m ∈ alerts_for news rows already ->
  ∃ c k, (c, k) ∈ rows ∧ m = alert_for c k ∧ keyword_found k news = true ∧ c ∉ already.
Proof.
  induction rows as [|[c k] rows IH]; intros already; cbn [alerts_for];
    [by intros ?%elem_of_nil |].
  destruct (keyword_found k news) eqn:Hk; cbn [andb].
  - case_bool_decide as Hc.
    + rewrite elem_of_cons. intros [-> | Hm].
      * exists c, k. repeat split; [left | done..].
      * destruct (IH _ Hm) as (c' & k' & Hin & -> & Hk' & Hc').
        exists c', k'. repeat split; [by right | done | set_solver].
    + intros Hm. destruct (IH _ Hm) as (c' & k' & Hin & -> & Hk' & Hc').
      exists c', k'. repeat split; [by right | done..].
  - intros Hm. destruct (IH _ Hm) as (c' & k' & Hin & -> & Hk' & Hc').
    exists c', k'. repeat split; [by right | done..].
Qed.

(** X14.  Once a chat has removed a keyword, no run of the matcher sends
    it the alert for that keyword, whatever the text. *)
Theorem removed_keyword_never_alerts (chat kw news : str) (d : database) :
  alert_for chat kw ∉ outbox (run (notify_alerts news) (unsubscribe chat kw d).1).2.
Proof.
  rewrite notify_alerts_run. cbn [snd outbox].
  intros (c & k & Hin & Heq & _)%elem_of_alerts_for.
  injection Heq as Hchat Htext. apply app_inv_tail in Htext. subst c k.
  unfold all_subscriptions in Hin. rewrite Sql_facts.elem_of_distinct in Hin.
  apply list_elem_of_fmap in Hin as (r & [= Hc Hk] & Hr).
  cbn [unsubscribe fst alerts] in Hr. apply list_elem_of_filter in Hr as [Hr _].
  by apply Hr.
Qed.

End Subscriptions.

(** ** Who is notified, and for which keywords *)

Section Notified.
Context {U : Unicode}.
Import Re.

Lemma first_matching_keyword_Some (news chat : str) (rows : list (str * str)) :
  is_Some (first_matching_keyword news chat rows) <->
  ∃ kw, (chat, kw) ∈ rows ∧ keyword_found kw news = true.
Proof.
  induction rows as [|[c k] rows IH]; cbn [first_matching_keyword].
  - split; [by intros [? ?] | by intros (? & ?%elem_of_nil & _)].
  - case_bool_decide as Hc; cbn [andb].
    + destruct (keyword_found k news) eqn:Hk.
      * split; [| by eexists]. intros _. exists k. split; [subst; left | done].
      * rewrite IH. split; intros (kw & Hin & Hkw); exists kw.
        -- split; [by right | done].
        -- split; [| done]. apply elem_of_cons in Hin as [[= -> ->] | ?]; [congruence | done].
    + rewrite IH. split; intros (kw & Hin & Hkw); exists kw.
      * split; [by right | done].
      * split; [| done]. apply elem_of_cons in Hin as [[= -> ->] | ?]; done.
Qed.

Lemma alerts_for_recipients (news : str) (rows : list (str * str)) :
  ∀ already, NoDup (to <$> alerts_for news rows already).
Proof.
  induction rows as [|[c k] rows IH]; intros already; cbn [alerts_for];
    [constructor |].
  destruct (_ && _); [| done]. cbn [fmap list_fmap to alert_for].
  constructor; [| done]. rewrite list_elem_of_fmap.
  intros (m & Hto & (c' & k' & _ & -> & _ & Hc')%elem_of_alerts_for).
  cbn [to alert_for] in Hto. set_solver.
Qed.

(** X15.  In one run of the matcher no chat is written to twice, and a
    chat is written to exactly when some row of [alerts] of that chat has a
    keyword that the text contains. *)
Theorem notified_iff_matching_row (news : str) (d : database) (chat : str) :
  NoDup (to <$> outbox (run (notify_alerts news) d).2) ∧
  (chat ∈ to <$> outbox (run (notify_alerts news) d).2 <->
   ∃ a, a ∈ alerts d ∧ a_chat_id a = chat ∧ keyword_found (keyword a) news = true).
Proof.
  rewrite notify_alerts_run. cbn [snd outbox].
  split; [apply alerts_for_recipients |].
  assert (Hrows : (∃ kw, (chat, kw) ∈ all_subscriptions d ∧ keyword_found kw news = true) <->
                  ∃ a, a ∈ alerts d ∧ a_chat_id a = chat ∧
                       keyword_found (keyword a) news = true).
  { unfold all_subscriptions. setoid_rewrite Sql_facts.elem_of_distinct.
    setoid_rewrite list_elem_of_fmap. split.
    - intros (kw & (a & [= -> ->] & Ha) & Hk). by exists a.
    - intros (a & Ha & <- & Hk). exists (keyword a). split; [by exists a | done]. }
  rewrite <- Hrows, <- first_matching_keyword_Some.
  assert (Hfilter := alerts_for_chat news chat (all_subscriptions d) ∅).
  rewrite bool_decide_eq_false_2 in Hfilter by set_solver.
  rewrite list_elem_of_fmap. split.
  - intros (m & -> & Hm).
    assert (Hin : m ∈ filter (λ m', to m' = to m) (alerts_for news (all_subscriptions d) ∅))
      by by apply list_elem_of_filter.
    rewrite Hfilter in Hin.
    destruct (first_matching_keyword news (to m) (all_subscriptions d));
      [done | by apply elem_of_nil in Hin].
  - intros [kw Hkw]. rewrite Hkw in Hfilter. exists (alert_for chat kw).
    split; [done |].
    assert (Hin : alert_for chat kw ∈
                  filter (λ m, to m = chat) (alerts_for news (all_subscriptions d) ∅))
      by (rewrite Hfilter; left).
    by apply list_elem_of_filter in Hin as [_ ?].
Qed.

Lemma same_text_trans (a b c : str) : same_text a b -> same_text b c -> same_text a c.
Proof.
  unfold same_text. intros Hab. revert c.
  induction Hab as [|x y a b Hxy Hab IH]; intros c Hbc; inversion Hbc; subst;
    constructor; [congruence | auto].
Qed.

Lemma same_text_sym (a b : str) : same_text a b -> same_text b a.
Proof. unfold same_text. induction 1; by constructor. Qed.

(** X16.  Two keywords that are equal up to case are found in the same
    texts. *)
Theorem keyword_case_is_irrelevant (k1 k2 news : str) :
  same_text k1 k2 -> keyword_found k1 news = keyword_found k2 news.
Proof.
  intros H12.
  assert (Himp : ∀ a b, same_text a b ->
                        keyword_found a news = true -> keyword_found b news = true).
  { intros a b Hab. rewrite !keyword_found_spec.
    intros (before & word & after & -> & Hw & Hb & Ha).
    exists before, word, after. repeat split; [| done..].
    eapply same_text_trans; [by apply same_text_sym | done]. }
  destruct (keyword_found k1 news) eqn:E1.
  - symmetry. by apply (Himp k1 k2).
  - destruct (keyword_found k2 news) eqn:E2; [| done].
    apply (Himp k2 k1) in E2; [congruence | by apply same_text_sym].
Qed.

Lemma word_at_elem (o : option char) (s : str) :
  word_at o = true -> (∀ c, o = Some c -> c ∈ s) -> ∃ c, c ∈ s ∧ re_word c = true.
Proof. destruct o as [c |]; [| done]. intros Hc Hin. exists c. auto. Qed.

(** X17.  A text without any word character, the empty text for one,
    contains no keyword: the matcher sends nothing for it. *)
Theorem no_word_no_alert (news : str) (d : database) :
  Forall (λ c, re_word c = false) news ->
  (∀ kw, keyword_found kw news = false) ∧
  outbox (run (notify_alerts news) d).2 = [].
Proof.
  intros Hnews.
  assert (Hnone : ∀ kw, keyword_found kw news = false).
  { intros kw. apply not_true_is_false. rewrite keyword_found_spec.
    intros (before & word & after & -> & _ & Hb & _).
    rewrite Forall_forall in Hnews.
    unfold at_boundary in Hb.
    assert (Hword : ∃ c, c ∈ before ++ word ++ after ∧ re_word c = true).
    { destruct (word_at (last before)) eqn:Hl.
      - apply (word_at_elem _ _ Hl). intros c Hc.
        apply last_Some in Hc as [l' ->]. set_solver.
      - cbn [xorb] in Hb.
        apply (word_at_elem (head (word ++ after)) _ Hb). intros c Hc.
        apply head_Some in Hc as [l' Hl']. rewrite Hl'. set_solver. }
    destruct Hword as (c & Hc & Hw). specialize (Hnews c Hc). congruence. }
  split; [done |]. rewrite notify_alerts_run. cbn [snd outbox].
  generalize (∅ : gset str).
  induction (all_subscriptions d) as [|[c k] rows IH]; intros already; [done |].
  cbn [alerts_for]. rewrite Hnone. cbn [andb]. apply IH.
Qed.

(** X18.  A keyword whose last character is outside [\w] in every case
    the text may write it in, such as [c++], is found only where a word
    character follows it at once: never at the end of the text, nor before
    a blank or a punctuation mark. *)
Theorem keyword_ending_in_non_word (kw : str) (c : char) (news : str) :
  (∀ x, re_fold c = re_fold x -> re_word x = false) ->
  keyword_found (kw ++ [c]) news = true ->
  ∃ before word x after,
    news = before ++ word ++ x :: after ∧ same_text (kw ++ [c]) word ∧ re_word x = true.
Proof.
  intros Hc. rewrite keyword_found_spec.
  intros (before & word & after & -> & Hw & _ & Ha).
  assert (Hlast : ∃ w y, word = w ++ [y] ∧ re_fold c = re_fold y).
  { unfold same_text in Hw. apply Forall2_app_inv_l in Hw as (w & ys & _ & Hy & ->).
    inversion Hy as [|? y ? ? Hcy Hnil]; subst. inversion Hnil; subst.
    by exists w, y. }
  destruct Hlast as (w & y & -> & Hcy).
  rewrite app_assoc, last_snoc in Ha. unfold at_boundary in Ha. cbn [word_at] in Ha.
  rewrite (Hc y Hcy) in Ha. cbn [xorb] in Ha.
  destruct after as [|x after]; [done |]. cbn [head word_at] in Ha.
  by exists before, (w ++ [y]), x, after.
Qed.

End Notified.

(** ** The counts of the frequency views *)

Module Total_facts.
Import Sql.

Lemma total_cons (x : str * N) (l : list (str * N)) : total (x :: l) = x.2 + total l.
Proof. reflexivity. Qed.

Lemma total_perm (l1 l2 : list (str * N)) : l1 ≡ₚ l2 -> total l1 = total l2.
Proof.
  induction 1 as [| x l1 l2 _ IH | x y l | l1 l2 l3 _ IH1 _ IH2];
    rewrite ?total_cons; [done | lia | lia | congruence].
Qed.

Lemma total_app (l1 l2 : list (str * N)) : total (l1 ++ l2) = total l1 + total l2.
Proof.
  induction l1 as [|x l1 IH]; [done |].
  rewrite <- app_comm_cons, !total_cons. lia.
Qed.

Lemma count_cons (k x : str) (keys : list str) :
  count k (x :: keys) = (if decide (x = k) then 1 else 0) + count k keys.
Proof.
  unfold count. rewrite filter_cons. destruct (decide (x = k)); cbn [length]; lia.
Qed.

(** Over keys without repetition, a row is counted under one key. *)
Lemma total_counts (ks keys : list str) :
  NoDup ks -> (∀ x, x ∈ keys -> x ∈ ks) ->
  total ((λ k, (k, count k keys)) <$> ks) = N.of_nat (length keys).
Proof.
  intros Hnd. induction keys as [|x keys IH]; intros Hin.
  - clear Hin Hnd. induction ks as [|k ks IH]; [done |].
    rewrite fmap_cons, total_cons, IH. done.
  - assert (Hx : x ∈ ks) by (apply Hin; left).
    assert (Hstep : total ((λ k, (k, count k (x :: keys))) <$> ks) =
                    (if decide (x ∈ ks) then 1 else 0) +
                    total ((λ k, (k, count k keys)) <$> ks)).
    { clear IH Hin Hx. induction Hnd as [|k ks Hk Hnd IH]; [done |].
      rewrite !fmap_cons, !total_cons, IH. cbn [snd]. rewrite count_cons.
      destruct (decide (x = k)) as [-> | Hne].
      - rewrite (decide_True (P := k ∈ k :: ks)) by left.
        rewrite (decide_False (P := k ∈ ks)) by done. lia.
      - destruct (decide (x ∈ ks)).
        + rewrite (decide_True (P := x ∈ k :: ks)) by by right. lia.
        + rewrite (decide_False (P := x ∈ k :: ks)); [lia |].
          rewrite elem_of_cons. tauto. }
    rewrite Hstep, IH by (intros y Hy; apply Hin; by right).
    rewrite decide_True by done. cbn [length]. lia.
Qed.

Lemma total_group_count (keys : list str) :
  total (group_count keys) = N.of_nat (length keys).
Proof.
  unfold group_count. apply total_counts.
  - unfold group_keys. rewrite Order_facts.order_by_perm.
    apply Sql_facts.NoDup_distinct_from.
  - intros x Hx. unfold group_keys.
    by rewrite Order_facts.order_by_perm, Sql_facts.elem_of_distinct.
Qed.

(** The counts of a frequency statement: they never add up to more than
    the rows it groups, and to all of them when the limit does not cut a
    group off. *)
Lemma total_frequency (keys : list str) (n : N) :
  total (limit n (by_count_desc (group_count keys))) <= N.of_nat (length keys) ∧
  (N.of_nat (length (distinct keys)) <= n ->
   total (limit n (by_count_desc (group_count keys))) = N.of_nat (length keys)).
Proof.
  assert (Hall : total (by_count_desc (group_count keys)) = N.of_nat (length keys)).
  { rewrite (total_perm _ _ (Group_facts.by_count_desc_perm _)).
    apply total_group_count. }
  split.
  - destruct (Order_facts.limit_prefix n (by_count_desc (group_count keys)))
      as [dropped Hdrop].
    rewrite <- Hall. rewrite <- Hdrop at 2. rewrite total_app. lia.
  - intros Hn. unfold limit. rewrite take_ge; [done |].
    rewrite (Permutation_length (Group_facts.by_count_desc_perm _)).
    unfold group_count, group_keys.
    rewrite length_fmap, (Permutation_length (Order_facts.order_by_perm _ _)). lia.
Qed.

End Total_facts.

(** X19.  The counts that [/mytopics] and [/trending] show never add up
    to more than the rows they are taken from, the rows of the chat and all
    rows; they add up to exactly that number when there are no more topics
    than the limit. *)
Theorem frequency_counts_add_up (d : database) (chat : str) (n : N) :
  total (topic_frequency d chat n) <= N.of_nat (length (rows_of_chat chat d)) ∧
  (N.of_nat (length (distinct_topics d chat)) <= n ->
   total (topic_frequency d chat n) = N.of_nat (length (rows_of_chat chat d))) ∧
  total (global_topic_frequency d n) <= N.of_nat (length (interactions d)) ∧
  (N.of_nat (length (Sql.distinct (input_topic <$> interactions d))) <= n ->
   total (global_topic_frequency d n) = N.of_nat (length (interactions d))).
Proof.
  unfold topic_frequency, global_topic_frequency, distinct_topics.
  destruct (Total_facts.total_frequency (input_topic <$> rows_of_chat chat d) n) as [H1 H2].
  destruct (Total_facts.total_frequency (input_topic <$> interactions d) n) as [H3 H4].
  rewrite !length_fmap in *. done.
Qed.

(** X20.  [/discover] never lists more than ten topics. *)
Theorem discover_at_most_ten {U : Unicode} (d : database) (chat : str) :
  (length (elements (unexplored d chat)) <= 10)%nat.
Proof.
  change (size (unexplored d chat) <= 10)%nat. unfold unexplored. cbn zeta.
  trans (size (list_to_set (global_topic_frequency d 10).*1 : gset str));
    [apply subseteq_size; set_solver |].
  rewrite size_list_to_set.
  - rewrite length_fmap. unfold global_topic_frequency, Sql.limit.
    rewrite length_take. lia.
  - unfold global_topic_frequency, Sql.limit. rewrite fmap_take.
    eapply sublist_NoDup; [| apply sublist_take].
    rewrite Group_facts.by_count_desc_perm. apply Group_facts.NoDup_group_count.
Qed.

(** ** The further theorems at concrete inputs *)

Lemma headline_taken_for_failure_witness :
  Scenario.key ≠ [] ∧
  Py.startswith_any (lit "No news is good news - No description available.")
    [lit "Error:"; lit "No news"] = true ∧
  Example.after (news_command (U := ascii_tables) Scenario.headline_world (lit "42")
                   [lit "sports"]) empty_db = empty_db.
Proof.
  split; [discriminate | split; [reflexivity |]].
  unfold Example.after.
  destruct (headline_taken_for_failure (U := ascii_tables) Scenario.headline_world
              (lit "42") [lit "sports"] empty_db Scenario.key Scenario.one_headline
              {| Gnews.title := Some (Gnews.JString (lit "No news is good news"));
                 Gnews.description := None |} []
              (lit "No news is good news - No description available.") [])
    as [_ ->]; [discriminate | reflexivity..].
Defined.

Lemma missing_gemini_key_reported_witness :
  Example.sent (news_command (U := ascii_tables) (Scenario.failing_model_world None)
                  (lit "42") [lit "sports"]) empty_db =
  [searching_msg (U := ascii_tables) (lit "42") (lit "sports");
   {| to := lit "42"; text := Gemini.key_missing; mode := None |}].
Proof.
  unfold Example.sent.
  rewrite (missing_gemini_key_reported (U := ascii_tables)
             (Scenario.failing_model_world None) (lit "42") [lit "sports"] empty_db
             None Scenario.quota_exceeded); [reflexivity | by left | reflexivity..].
Defined.

Lemma summarization_error_is_stored_witness :
  summary <$> interactions
    (Example.after (news_command (U := ascii_tables)
                      (Scenario.failing_model_world (Some (lit "g3m")))
                      (lit "42") [lit "sports"]) empty_db) =
  [lit "An unexpected error occurred during summarization: 429 quota exceeded"].
Proof.
  unfold Example.after.
  rewrite (summarization_error_is_stored (U := ascii_tables)
             (Scenario.failing_model_world (Some (lit "g3m"))) (lit "42") [lit "sports"]
             empty_db 103 (lit "3m") Scenario.quota_exceeded (lit "429 quota exceeded"));
    reflexivity.
Defined.

Lemma digest_at_most_4000_witness :
  (length (lit "AI News Digest: *Sports*" ++ newline ++ newline ++
           lit "A new chip was announced.") <= 4000)%nat.
Proof.
  apply (digest_at_most_4000 (U := ascii_tables) Example.world (lit "42") [lit "sports"]
           empty_db
           {| to := lit "42";
              text := lit "AI News Digest: *Sports*" ++ newline ++ newline ++
                      lit "A new chip was announced.";
              mode := Some MarkdownV2 |}).
  - vm_compute. right. left.
  - reflexivity.
Defined.

Lemma commands_keep_stored_interactions_witness :
  "alerts"%string ≠ "news"%string ∧
  interactions
    (Example.after (dispatch (U := ascii_tables) Example.world "alerts" (lit "42") [])
       Example.three_requests) =
  interactions Example.three_requests.
Proof.
  split; [discriminate |].
  apply (commands_keep_stored_interactions (U := ascii_tables) Example.world "alerts"
           (lit "42") [] Example.three_requests).
  discriminate.
Defined.

Lemma history_reply_witness :
  history_limit (U := ascii_tables) [lit "2"] <= sqlite_max_int ∧
  ∃ msg pm,
    run (history_command (U := ascii_tables) (lit "42") [lit "2"]) Example.three_requests =
      (Returned tt,
       {| store := Example.three_requests;
          outbox := [{| to := lit "42"; text := msg; mode := pm |}] |}) ∧
    (msg = no_history_msg <->
     history_limit (U := ascii_tables) [lit "2"] = 0 ∨
     rows_of_chat (lit "42") Example.three_requests = []).
Proof.
  assert (H : history_limit (U := ascii_tables) [lit "2"] <= sqlite_max_int)
    by (vm_compute; discriminate).
  split; [exact H |].
  exact (history_reply (U := ascii_tables) (lit "42") [lit "2"] Example.three_requests H).
Defined.

Lemma history_decimal_argument_witness :
  9223372036854775808 < 10 ^ 4300 ∧
  sqlite_max_int < 9223372036854775808 ∧
  history_limit (U := ascii_tables) [Py.str_of_N 9223372036854775808] =
    9223372036854775808 ∧
  run (history_command (U := ascii_tables) (lit "42")
         [Py.str_of_N 9223372036854775808]) Example.three_requests =
  (Raised OverflowError, {| store := Example.three_requests; outbox := [] |}).
Proof.
  assert (Hd : 9223372036854775808 < 10 ^ 4300) by (vm_compute; reflexivity).
  assert (H : sqlite_max_int < 9223372036854775808) by reflexivity.
  split; [exact Hd |]. split; [exact H |].
  destruct (history_decimal_argument 9223372036854775808 [] (lit "42")
              Example.three_requests Hd) as [Hl Hr].
  split; [exact Hl | exact (Hr H)].
Defined.

Lemma stored_request_heads_history_witness :
  (∀ r, r ∈ rows_of_chat (lit "42") Example.three_requests ->
        Sql.text_lt (timestamp r) (lit "2025-01-01 10:00:04") = true) ∧
  input_topic <$>
    recent (append (lit "2025-01-01 10:00:04") (lit "42") (lit "c") [] []
              Example.three_requests) (lit "42") 2 =
  [lit "c"; lit "b"].
Proof.
  assert (H : ∀ r, r ∈ rows_of_chat (lit "42") Example.three_requests ->
                   Sql.text_lt (timestamp r) (lit "2025-01-01 10:00:04") = true).
  { intros r Hr. vm_compute in Hr.
    repeat (apply elem_of_cons in Hr as [-> | Hr]; [reflexivity |]).
    by apply elem_of_nil in Hr. }
  split; [exact H |].
  destruct (stored_request_heads_history Example.three_requests
              (lit "2025-01-01 10:00:04") (lit "42") (lit "c") [] [] 1 (lit "7") H)
    as [Hhead _].
  change 2 with (N.succ 1). rewrite Hhead. reflexivity.
Defined.

Lemma alert_then_list_witness :
  lit "7" ≠ lit "1" ∧
  list_for_chat
    (Example.after (alert_command (U := ascii_tables) (lit "1") [lit "Space"; lit "X"])
       Scenario.two_keywords) (lit "1") =
    [lit "ai"; lit "chip"; lit "space x"] ∧
  list_for_chat
    (Example.after (alert_command (U := ascii_tables) (lit "1") [lit "Space"; lit "X"])
       Scenario.two_keywords) (lit "7") = [].
Proof.
  destruct (alert_then_list (U := ascii_tables) (lit "1") (lit "Space") [lit "X"]
              Scenario.two_keywords (lit "7")) as [Hlist Hother].
  split; [discriminate |]. unfold Example.after.
  split; [rewrite Hlist; reflexivity |].
  rewrite Hother; [reflexivity | discriminate].
Defined.

Lemma alert_then_removealert_witness :
  (∀ r, r ∈ alerts empty_db -> ¬ subscribed (lit "1") (lit "ai") r) ∧
  ∃ d2,
    run (removealert_command (U := ascii_tables) (lit "1") [lit "AI"])
      (store (run (alert_command (U := ascii_tables) (lit "1") [lit "AI"]) empty_db).2) =
      (Returned tt,
       {| store := d2;
          outbox := [{| to := lit "1"; text := removed_msg (lit "ai"); mode := None |}] |}) ∧
    alerts d2 = [].
Proof.
  assert (H : ∀ r, r ∈ alerts empty_db -> ¬ subscribed (lit "1") (lit "ai") r)
    by (intros r Hr; by apply elem_of_nil in Hr).
  split; [exact H |].
  destruct (alert_then_removealert (U := ascii_tables) (lit "1") (lit "AI") [] empty_db)
    as (d2 & Hrun & _ & Hsame).
  exists d2. split; [exact Hrun | exact (Hsame H)].
Defined.

Lemma keyword_case_is_irrelevant_witness :
  same_text (U := ascii_tables) (lit "ai") (lit "AI") ∧
  keyword_found (U := ascii_tables) (lit "ai") (lit "New AI chip announced") =
  keyword_found (U := ascii_tables) (lit "AI") (lit "New AI chip announced").
Proof.
  assert (H : same_text (U := ascii_tables) (lit "ai") (lit "AI"))
    by (repeat constructor).
  split; [exact H |].
  exact (keyword_case_is_irrelevant (U := ascii_tables) (lit "ai") (lit "AI")
           (lit "New AI chip announced") H).
Defined.

Lemma no_word_no_alert_witness :
  Forall (λ c, Ascii_range.is_word c = false) (lit "... !?") ∧
  outbox (run (notify_alerts (U := ascii_tables) (lit "... !?")) Scenario.two_keywords).2 = [].
Proof.
  assert (H : Forall (λ c, @re_word ascii_tables c = false) (lit "... !?"))
    by (repeat constructor).
  split; [exact H |].
  apply (no_word_no_alert (U := ascii_tables) (lit "... !?") Scenario.two_keywords H).
Defined.

Lemma ascii_fold_keeps_class (a b : char) :
  Ascii_range.to_lower a = Ascii_range.to_lower b ->
  Ascii_range.is_word a = Ascii_range.is_word b.
Proof.
  unfold Ascii_range.to_lower, Ascii_range.is_word, Ascii_range.is_upper,
    Ascii_range.is_lower, Ascii_range.is_digit.
  repeat match goal with
         | |- context [?x <=? ?y] => destruct (N.leb_spec x y)
         | |- context [?x =? ?y] => destruct (N.eqb_spec x y)
         end; cbn; try done; lia.
Qed.

Lemma keyword_ending_in_non_word_witness :
  (∀ x, @re_fold ascii_tables 43 = @re_fold ascii_tables x ->
        @re_word ascii_tables x = false) ∧
  keyword_found (U := ascii_tables) (lit "c+" ++ [43]) (lit "learn c++x today") = true ∧
  ∃ before word x after,
    lit "learn c++x today" = before ++ word ++ x :: after ∧
    same_text (U := ascii_tables) (lit "c+" ++ [43]) word ∧
    @re_word ascii_tables x = true.
Proof.
  assert (Hplus : ∀ x, @re_fold ascii_tables 43 = @re_fold ascii_tables x ->
                       @re_word ascii_tables x = false).
  { intros x Hx. symmetry. apply (ascii_fold_keeps_class 43 x Hx). }
  split; [exact Hplus | split; [reflexivity |]].
  apply (keyword_ending_in_non_word (U := ascii_tables) (lit "c+") 43
           (lit "learn c++x today") Hplus); reflexivity.
Defined.

Lemma frequency_counts_add_up_witness :
  N.of_nat (length (distinct_topics Example.three_requests (lit "42"))) <= 5 ∧
  total (topic_frequency Example.three_requests (lit "42") 5) = 3.
Proof.
  assert (H : N.of_nat (length (distinct_topics Example.three_requests (lit "42"))) <= 5)
    by (vm_compute; discriminate).
  split; [exact H |].
  destruct (frequency_counts_add_up Example.three_requests (lit "42") 5)
    as (_ & Hall & _).
  rewrite (Hall H). reflexivity.
Defined.
